(** * riot: configuration-tree resolution, instance expansion and the
      session run protocol

    A shallow embedding of [riot/riot.py]: the [Venv] tree with its
    [resolve] and [instances] methods, [expand_specs], the helpers used to
    derive virtualenv names, and [Session.run] with its failure accounting. *)

From Stdlib Require Import List String Ascii ZArith Lia Bool Arith PeanoNat.
Import ListNotations.

Local Open Scope string_scope.
Local Open Scope list_scope.

Set Implicit Arguments.

(** ** Python dictionaries

    A [dict] keeps its keys in insertion order, and the order is observable
    through [items()] (it fixes the order of the axes in [expand_specs] and
    of the tokens of a virtualenv name).  A dictionary is therefore modelled
    as an association list in insertion order. *)

Section Dicts.
Variable V : Type.

Definition Dict := list (string * V).

Definition dict_items (d : Dict) : list (string * V) := d.

Definition dict_keys (d : Dict) : list string := map fst d.

(** [d.get(k)] *)
Fixpoint dict_get (k : string) (d : Dict) : option V :=
  match d with
  | [] => None
  | (k', v) :: rest => if String.eqb k k' then Some v else dict_get k rest
  end.

(** [d[k] = v]: an existing key keeps its position, a new key goes last. *)
Fixpoint dict_set (k : string) (v : V) (d : Dict) : Dict :=
  match d with
  | [] => [(k, v)]
  | (k', v') :: rest =>
      if String.eqb k k' then (k', v) :: rest
      else (k', v') :: dict_set k v rest
  end.

(** [d.update(other)] for a dictionary [other] that is another object. *)
Definition dict_update (d other : Dict) : Dict :=
  fold_left (fun acc kv => dict_set (fst kv) (snd kv) acc) (dict_items other) d.

(** [bool(d)] *)
Definition dict_nonempty (d : Dict) : bool :=
  match d with [] => false | _ :: _ => true end.
End Dicts.

Arguments dict_items {V} d.
Arguments dict_keys {V} d.
Arguments dict_get {V} k d.
Arguments dict_set {V} k v d.
Arguments dict_update {V} d other.
Arguments dict_nonempty {V} d.

(** ** [itertools.product] and [expand_specs] *)

Section Product.
Variable A : Type.

(** One round of the documented definition of [itertools.product]:
    [result = [x + [y] for x in result for y in pool]]. *)
Definition product_step (result : list (list A)) (pool : list A)
  : list (list A) :=
  flat_map (fun x => map (fun y => x ++ [y]) pool) result.

(** [itertools.product] applied to the pools: [result = [[]]], then one
    round per pool. *)
Definition product (pools : list (list A)) : list (list A) :=
  fold_left product_step pools [[]].
End Product.

(** [expand_specs(specs)]: one pool [[(name, val) for val in vals]] per item
    of [specs], then the product of the pools. *)
Definition expand_specs {V : Type} (specs : Dict (list V))
  : list (list (string * V)) :=
  let all_vals :=
    map (fun item => map (fun val => (fst item, val)) (snd item))
        (dict_items specs) in
  product all_vals.

(** The product of the lengths of the candidate lists of a mapping. *)
Definition axes_size {V : Type} (specs : Dict (list V)) : nat :=
  fold_right (fun item n => List.length (snd item) * n) 1 specs.

(** A combination assigns to each axis of the mapping, in the order of the
    mapping, one of the candidates of that axis. *)
Definition picks_from {V : Type} (specs : Dict (list V))
    (combo : list (string * V)) : Prop :=
  Forall2 (fun item pair => fst pair = fst item /\ In (snd pair) (snd item))
          specs combo.

(** ** The data model *)

(** A Python version.  The source holds it as a float (riotfiles also use
    strings) and uses it through equality ([in], [set]) and [str] only; it
    is modelled by its [str] rendering, which identifies a finite float. *)
Definition PyVersion := string.

(** A candidate version of a package: a constraint string, or [None] for
    "leave the package out". *)
Definition Version := option string.

(** A candidate value of an environment variable: a literal (which may be
    [None]) or a callable, applied at run time to the resolved packages. *)
Inductive EnvValue :=
| Literal (v : option string)
| Callable (f : Dict string -> option string).

(** The [pkgs] and [env] attributes are declared [attr.ib(default={})]: a
    [Venv] built without the argument holds the one dictionary object that
    is the default of the class, the same object for every such [Venv].
    [Default] is a reference to that object, whose contents live in the
    [Store]; [Own d] is a dictionary given by the caller. *)
Inductive Mapping (V : Type) :=
| Default
| Own (d : Dict V).

Arguments Default {V}.
Arguments Own {V} d.

(** The contents of the two default dictionaries of class [Venv]. *)
Record Store := mkStore {
  default_pkgs : Dict (list Version);
  default_env : Dict (list EnvValue)
}.

(** The store when the module has just been loaded. *)
Definition pristine : Store := mkStore [] [].

(** The induction principle over the tree is stated by hand below. *)
Local Unset Elimination Schemes.

Inductive Venv := mkVenv {
  name : option string;
  command : option string;
  pys : list PyVersion;
  pkgs : Mapping (list Version);
  env : Mapping (list EnvValue);
  venvs : list Venv
}.

Local Set Elimination Schemes.

(** Induction over the tree: a property that holds of a node as soon as it
    holds of all its children holds of every node. *)
Section VenvInduction.
Variable P : Venv -> Prop.
Hypothesis node_case :
  forall n c p k e vs, Forall P vs -> P (mkVenv n c p k e vs).

Fixpoint Venv_ind (v : Venv) : P v :=
  match v with
  | mkVenv n c p k e vs =>
      node_case n c p k e
        ((fix all (l : list Venv) : Forall P l :=
            match l with
            | [] => Forall_nil P
            | x :: r => Forall_cons x (Venv_ind x) (all r)
            end) vs)
  end.
End VenvInduction.

Record VenvInstance := mkVenvInstance {
  inst_name : option string;
  inst_py : PyVersion;
  inst_command : string;
  inst_env : list (string * EnvValue);
  inst_pkgs : list (string * Version)
}.

(** The dictionary a [pkgs] (resp. [env]) attribute denotes in a store. *)
Definition deref_pkgs (s : Store) (m : Mapping (list Version))
  : Dict (list Version) :=
  match m with Default => default_pkgs s | Own d => d end.

Definition deref_env (s : Store) (m : Mapping (list EnvValue))
  : Dict (list EnvValue) :=
  match m with Default => default_env s | Own d => d end.

(** Truth value of an optional string: [None] and the empty string are
    false. *)
Definition str_truthy (o : option string) : bool :=
  match o with
  | Some s => negb (String.eqb s EmptyString)
  | None => false
  end.

(** Truth value of a list. *)
Definition list_truthy {A : Type} (l : list A) : bool :=
  match l with [] => false | _ :: _ => true end.

(** ** [Venv.resolve] *)

(** [Venv()]: every attribute takes its default. *)
Definition new_Venv : Venv := mkVenv None None [] Default Default [].

(** [target.update(source)] where [target] is the default dictionary, of
    contents [dflt].  When [source] is that same object the call leaves it
    as it is. *)
Definition update_default {V : Type} (dflt : Dict V) (source : Mapping V)
  : Dict V :=
  match source with
  | Default => dflt
  | Own d => dict_update dflt d
  end.

(** One round of the loop [for parent in parents + [self]].  [venv.env] and
    [venv.pkgs] are the default dictionaries, as [venv = Venv()]. *)
Definition resolve_step (acc : Venv * Store) (parent : Venv) : Venv * Store :=
  let (venv, s) := acc in
  let venv :=
    if str_truthy (name parent)
    then mkVenv (name parent) (command venv) (pys venv) (pkgs venv) (env venv)
                (venvs venv)
    else venv in
  let venv :=
    if list_truthy (pys parent)
    then mkVenv (name venv) (command venv) (pys parent) (pkgs venv) (env venv)
                (venvs venv)
    else venv in
  let venv :=
    if str_truthy (command parent)
    then mkVenv (name venv) (command parent) (pys venv) (pkgs venv) (env venv)
                (venvs venv)
    else venv in
  let new_env := update_default (default_env s) (env parent) in
  let new_pkgs := update_default (default_pkgs s) (pkgs parent) in
  (venv, mkStore new_pkgs new_env).

Definition resolve (self : Venv) (parents : list Venv) (s : Store)
  : Venv * Store :=
  match parents with
  | [] => (self, s)
  | _ :: _ => fold_left resolve_step (parents ++ [self]) (new_Venv, s)
  end.

(** ** [Venv.instances] *)

(** A compiled pattern, through [pattern.match(name)] being a match. *)
Definition Pattern := string -> bool.

(** [venv.name and not pattern.match(venv.name)] *)
Definition mismatch (pattern : Pattern) (venv : Venv) : bool :=
  match name venv with
  | Some n => negb (String.eqb n EmptyString) && negb (pattern n)
  | None => false
  end.

(** [resolved.command and resolved.pys] *)
Definition runnable (resolved : Venv) : bool :=
  str_truthy (command resolved) && list_truthy (pys resolved).

(** The three nested loops over [expand_specs(resolved.env)],
    [resolved.pys] and [expand_specs(resolved.pkgs)]; nothing writes to
    the store while they run. *)
Definition expand (resolved : Venv) (s : Store) : list VenvInstance :=
  match command resolved with
  | None => []
  | Some cmd =>
      if runnable resolved then
        flat_map (fun e =>
          flat_map (fun py =>
            map (fun p => mkVenvInstance (name resolved) py cmd e p)
                (expand_specs (deref_pkgs s (pkgs resolved))))
            (pys resolved))
          (expand_specs (deref_env s (env resolved)))
      else []
  end.

(** The loop [for venv in self.venvs] of [instances]: a child whose name
    is set and does not match is passed over, any other child is entered
    ([enter] is the recursive call) and what it yields is yielded. *)
Section ChildrenLoop.
Variable pattern : Pattern.
Variable enter : Venv -> Store -> list VenvInstance * Store.

Fixpoint children_instances (vs : list Venv) (s : Store)
  : list VenvInstance * Store :=
  match vs with
  | [] => ([], s)
  | venv :: rest =>
      if mismatch pattern venv then children_instances rest s
      else
        let '(l, s') := enter venv s in
        let '(l', s'') := children_instances rest s' in
        (l ++ l', s'')
  end.
End ChildrenLoop.

(** The generator [self.instances(pattern, parents)], run to its end: the
    instances in the order they are yielded, and the store it leaves.  The
    consumers of the generator neither read nor write the store between two
    yields, so the list and the final store describe the run. *)
Fixpoint instances (self : Venv) (pattern : Pattern) (parents : list Venv)
    (s : Store) {struct self} : list VenvInstance * Store :=
  let '(yielded, s1) :=
    children_instances pattern
      (fun venv s' => instances venv pattern (parents ++ [self]) s')
      (venvs self) s in
  let '(resolved, s2) := resolve self parents s1 in
  (yielded ++ expand resolved s2, s2).

(** *** Provenance

    The same generator with every instance tagged by the place of the node
    that yields it: the list of child indices leading from [self] down to
    that node ([[]] for [self] itself). *)
Definition Path := list nat.

Definition via (i : nat) (x : Path * VenvInstance) : Path * VenvInstance :=
  (i :: fst x, snd x).

Definition here (x : VenvInstance) : Path * VenvInstance := ([], x).

Section ChildrenLoopFrom.
Variable pattern : Pattern.
Variable enter : Venv -> Store -> list (Path * VenvInstance) * Store.

(** [i] is the index of the head of [vs] in the list of children. *)
Fixpoint children_from (i : nat) (vs : list Venv) (s : Store)
  : list (Path * VenvInstance) * Store :=
  match vs with
  | [] => ([], s)
  | venv :: rest =>
      if mismatch pattern venv then children_from (S i) rest s
      else
        let '(l, s') := enter venv s in
        let '(l', s'') := children_from (S i) rest s' in
        (map (via i) l ++ l', s'')
  end.
End ChildrenLoopFrom.

Fixpoint instances_from (self : Venv) (pattern : Pattern)
    (parents : list Venv) (s : Store) {struct self}
  : list (Path * VenvInstance) * Store :=
  let '(yielded, s1) :=
    children_from pattern
      (fun venv s' => instances_from venv pattern (parents ++ [self]) s')
      0 (venvs self) s in
  let '(resolved, s2) := resolve self parents s1 in
  (yielded ++ map here (expand resolved s2), s2).

(** The node at a path below [self], with the chain of its ancestors as
    [instances] passes it on: [parents], then [self], down to the node's
    own parent. *)
Fixpoint subtree_at (self : Venv) (parents : list Venv) (path : Path)
  : option (list Venv * Venv) :=
  match path with
  | [] => Some (parents, self)
  | i :: rest =>
      match nth_error (venvs self) i with
      | Some child => subtree_at child (parents ++ [self]) rest
      | None => None
      end
  end.

(** ** Strings and names *)

(** [s.replace(c, '')] for a one-character string [c]. *)
Fixpoint remove_char (c : ascii) (s : string) : string :=
  match s with
  | EmptyString => EmptyString
  | String a rest =>
      if Ascii.eqb a c then remove_char c rest
      else String a (remove_char c rest)
  end.

(** [rmchars(chars, s)]: [for c in chars: s = s.replace(c, '')]. *)
Definition rmchars (chars s : string) : string :=
  fold_left (fun acc c => remove_char c acc) (list_ascii_of_string chars) s.

(** [sep.join(parts)] *)
Fixpoint join (sep : string) (parts : list string) : string :=
  match parts with
  | [] => EmptyString
  | [x] => x
  | x :: rest => String.append x (String.append sep (join sep rest))
  end.

Definition get_pep_dep (libname version : string) : string :=
  String.append libname version.

Definition get_base_venv_path (pyversion : PyVersion) : string :=
  String.append ".riot/.venv_py" (remove_char "."%char pyversion).

Definition get_venv_command (venv_path cmd : string) : string :=
  String.append "source "
    (String.append venv_path (String.append "/bin/activate && " cmd)).

(** [{name: version for name, version in inst.pkgs if version is not None}] *)
Definition resolved_pkgs (inst : VenvInstance) : Dict string :=
  fold_left
    (fun d nv =>
       match snd nv with
       | Some version => dict_set (fst nv) version d
       | None => d
       end)
    (inst_pkgs inst) [].

(** ["_".join([f"{n}{rmchars('<=>.,', v)}" for n, v in pkgs.items()])] *)
Definition venv_postfix (pkgs : Dict string) : string :=
  join "_"
    (map (fun nv => String.append (fst nv) (rmchars "<=>.," (snd nv)))
         (dict_items pkgs)).

(** The name of the virtualenv of an instance, as [Session.run] derives it. *)
Definition venv_name_of (inst : VenvInstance) : string :=
  let base_venv := get_base_venv_path (inst_py inst) in
  let pkgs := resolved_pkgs inst in
  if dict_nonempty pkgs
  then String.append base_venv (String.append "_" (venv_postfix pkgs))
  else base_venv.

(** The package summary of an instance, as [Session.run] derives it. *)
Definition pkg_str_of (inst : VenvInstance) : string :=
  let pkgs := resolved_pkgs inst in
  if dict_nonempty pkgs
  then
    join " "
      (map (fun lv =>
              String.append "'"
                (String.append (get_pep_dep (fst lv) (snd lv)) "'"))
           (dict_items pkgs))
  else EmptyString.

(** ** The host: processes, file system, environment *)

(** What [subprocess.run] is asked to run: an argument vector, or a shell
    command line with the environment given by the [env] keyword. *)
Inductive Command :=
| Argv (args : list string)
| Shell (cmd : string) (env : option (Dict string)).

(** How a call to [subprocess.run] ends: the child exits with a return code
    (and the output that was captured), the user interrupts the wait, the
    program to run is not found ([FileNotFoundError]), or the call raises
    some other exception. *)
Inductive Outcome :=
| Exited (returncode : Z) (stdout : string)
| Interrupted
| NotFound
| Crashed.

Class Host := {
  World : Type;
  subprocess_run : Command -> World -> Outcome * World;
  os_path_isdir : string -> World -> bool;
  shutil_which : string -> World -> option string;
  os_environ : World -> Dict string;
  (** [cmd.format(cmdargs=cmdargs)]; [None] when [format] raises. *)
  str_format : string -> option string -> option string
}.

(** The messages the runner builds; the numbers and commands they quote are
    kept as they are rather than rendered. *)
Inductive Message :=
| CommandFailed (c : Command) (returncode : Z)
| FailedToCreate (venv_name stdout : string)
| FailedToInstall (pkg_str stdout : string)
| TestFailed (returncode : Z).

Inductive Exn :=
| CmdFailure (msg : Message) (code : Z) (stdout : string)
| FileNotFoundError
| KeyboardInterrupt
| OtherException.

Record VenvInstanceResult := mkResult {
  instance : VenvInstance;
  venv_name : string;
  pkgstr : string;
  code : Z
}.

(** What [Session.run] itself prints to [out].  The test command writes to
    [out] directly, as a child process; that is part of the [World]. *)
Inductive Printed :=
| Failure (msg : Message)
| SummaryHeader
| SummaryLine (failed : bool) (inst : VenvInstance) (pkgstr : string).

(** What the loop body does next. *)
Inductive Control :=
| Next
| Break
| SysExit (status : Z).

(** How a call of [Session.run] ends. *)
Inductive Termination :=
| Returned
| SystemExit (status : Z)
| Uncaught (e : Exn).

(** The exit status of the process: [0] when [run] returns (the command
    line does nothing after it), the argument of [sys.exit], and a non-zero
    status, written [1], when an exception that nobody catches ends the
    interpreter. *)
Definition exit_status (t : Termination) : Z :=
  match t with
  | Returned => 0
  | SystemExit status => status
  | Uncaught _ => 1
  end.

Record Report := mkReport {
  results : list VenvInstanceResult;
  printed : list Printed;
  termination : Termination
}.

Section Session.
Context {host : Host}.

(** Computations that read and change the world and may raise. *)
Definition M (A : Type) : Type := World -> (A + Exn) * World.

Definition ret {A : Type} (a : A) : M A := fun w => (inl a, w).

Definition raise {A : Type} (e : Exn) : M A := fun w => (inr e, w).

Definition bind {A B : Type} (m : M A) (k : A -> M B) : M B :=
  fun w =>
    match m w with
    | (inl a, w') => k a w'
    | (inr e, w') => (inr e, w')
    end.

(** [try: m  except CmdFailure as e: raise CmdFailure(msg(e), e.proc)] *)
Definition reraise {A : Type} (msg : Z -> string -> Message) (m : M A)
  : M A :=
  fun w =>
    match m w with
    | (inr (CmdFailure _ code stdout), w') =>
        (inr (CmdFailure (msg code stdout) code stdout), w')
    | other => other
    end.

Notation "x <- m ;; k" := (bind m (fun x => k))
  (at level 61, m at next level, right associativity).

(** [run_cmd(c, ...)].  [cmdargs] is [Some a] when the keyword [cmdargs]
    is passed (with value [a], possibly [None]); the command line is then
    formatted with it. *)
Definition run_cmd (c : Command) (cmdargs : option (option string))
  : M string :=
  fun w =>
    let formatted :=
      match cmdargs, c with
      | None, _ => Some c
      | Some a, Shell cmd env =>
          match str_format cmd a with
          | Some cmd' => Some (Shell cmd' env)
          | None => None
          end
      | Some _, Argv _ => None
      end in
    match formatted with
    | None => (inr OtherException, w)
    | Some c' =>
        match subprocess_run c' w with
        | (Exited returncode stdout, w') =>
            if (returncode =? 0)%Z then (inl stdout, w')
            else (inr (CmdFailure (CommandFailed c' returncode)
                                  returncode stdout), w')
        | (Interrupted, w') => (inr KeyboardInterrupt, w')
        | (NotFound, w') => (inr FileNotFoundError, w')
        | (Crashed, w') => (inr OtherException, w')
        end
    end.

(** [run_cmd_venv(venv, cmd, ...)] *)
Definition run_cmd_venv (venv cmd : string) (env : option (Dict string))
    (cmdargs : option (option string)) : M string :=
  run_cmd (Shell (get_venv_command venv cmd) env) cmdargs.

(** [create_base_venv(pyversion, recreate=recreate)] *)
Definition create_base_venv (pyversion : PyVersion) (recreate : bool)
  : M string :=
  fun w =>
    let path := get_base_venv_path pyversion in
    if os_path_isdir path w && negb recreate then (inl path, w)
    else
      match shutil_which (String.append "python" pyversion) w with
      | None => (inr FileNotFoundError, w)
      | Some py_ex =>
          (_ <- run_cmd (Argv ["virtualenv";
                               String.append "--python=" py_ex; path]) None ;;
           ret path) w
      end.

(** The loop of [generate_base_venvs] over the required versions.  An
    exception other than the two that are handled leaves the loop. *)
Fixpoint base_venvs_loop (required_pys : list PyVersion)
    (recreate skip_deps : bool) (w : World) : Termination * World :=
  match required_pys with
  | [] => (Returned, w)
  | py :: rest =>
      match create_base_venv py recreate w with
      | (inr (CmdFailure _ _ _), w') =>
          base_venvs_loop rest recreate skip_deps w'
      | (inr FileNotFoundError, w') =>
          base_venvs_loop rest recreate skip_deps w'
      | (inr e, w') => (Uncaught e, w')
      | (inl venv_path, w') =>
          if skip_deps then base_venvs_loop rest recreate skip_deps w'
          else
            match run_cmd_venv venv_path
                    "pip --disable-pip-version-check install -e ."
                    None None w' with
            | (inl _, w'') => base_venvs_loop rest recreate skip_deps w''
            | (inr (CmdFailure _ _ _), w'') => (SystemExit 1, w'')
            | (inr e, w'') => (Uncaught e, w'')
            end
      end
  end.

(** [py in pythons] *)
Definition py_in (py : PyVersion) (pythons : list PyVersion) : bool :=
  existsb (String.eqb py) pythons.

(** The versions [generate_base_venvs] goes through.  The source collects
    them in a [set], whose iteration order is not specified; here each
    version comes once, in the order [nodup] leaves them in. *)
Definition required_pys (insts : list VenvInstance)
    (pythons : list PyVersion) : list PyVersion :=
  let used := nodup string_dec (map inst_py insts) in
  if list_truthy pythons then filter (fun py => py_in py pythons) used
  else used.

Definition generate_base_venvs (venv : Venv) (pattern : Pattern)
    (recreate skip_deps : bool) (pythons : list PyVersion)
    (s : Store) (w : World) : Termination * Store * World :=
  let '(insts, s') := instances venv pattern [] s in
  let '(t, w') :=
    base_venvs_loop (required_pys insts pythons) recreate skip_deps w in
  (t, s', w').

(** The value of an environment variable of an instance:
    [v(AttrDict(pkgs=pkgs)) if callable(v) else v].  A callable is taken
    to return; one that raises would end the run like any other
    exception. *)
Definition resolved_val (v : EnvValue) (pkgs : Dict string)
  : option string :=
  match v with
  | Literal l => l
  | Callable f => f pkgs
  end.

(** The environment the test command runs in. *)
Definition instance_env (pass_env : bool) (inst : VenvInstance)
    (pkgs : Dict string) (w : World) : Dict string :=
  fold_left
    (fun env kv =>
       match resolved_val (snd kv) pkgs with
       | Some val => dict_set (fst kv) val env
       | None => env
       end)
    (inst_env inst)
    (if pass_env then os_environ w else []).

(** [["cp", "-r", base_venv, venv_name]] *)
Definition clone_command (inst : VenvInstance) : Command :=
  Argv ["cp"; "-r"; get_base_venv_path (inst_py inst); venv_name_of inst].

(** [f"pip --disable-pip-version-check install {pkg_str}"] *)
Definition install_line (inst : VenvInstance) : string :=
  String.append "pip --disable-pip-version-check install " (pkg_str_of inst).

(** The body of the [try] statement of [Session.run] for one instance. *)
Definition attempt (inst : VenvInstance) (pass_env : bool)
    (cmdargs : option string) : M unit :=
  let pkgs := resolved_pkgs inst in
  let venv_name := venv_name_of inst in
  let pkg_str := pkg_str_of inst in
  _ <- (if dict_nonempty pkgs then
          _ <- reraise (fun _ stdout => FailedToCreate venv_name stdout)
                 (run_cmd (clone_command inst) None) ;;
          _ <- reraise (fun _ stdout => FailedToInstall pkg_str stdout)
                 (run_cmd_venv venv_name (install_line inst) None None) ;;
          ret tt
        else ret tt) ;;
  fun w =>
    let env := instance_env pass_env inst pkgs w in
    (_ <- reraise (fun returncode _ => TestFailed returncode)
            (run_cmd_venv venv_name (inst_command inst) (Some env)
               (Some cmdargs)) ;;
     ret tt) w.

(** [VenvInstanceResult(instance=inst, venv_name=venv_name,
    pkgstr=pkg_str)] with its [code] set. *)
Definition result_of (inst : VenvInstance) (code : Z) : VenvInstanceResult :=
  mkResult inst (venv_name_of inst) (pkg_str_of inst) code.

(** One round of the loop of [Session.run], for an instance that passes
    the version filter: the result that the [finally] clause appends,
    what is printed, and how the loop goes on.  A result is created with
    the default [code=1]. *)
Definition run_instance (inst : VenvInstance) (pass_env : bool)
    (cmdargs : option string) (w : World)
  : VenvInstanceResult * list Printed * Control * World :=
  match attempt inst pass_env cmdargs w with
  | (inl _, w') => (result_of inst 0, [], Next, w')
  | (inr (CmdFailure msg code _), w') =>
      (result_of inst code, [Failure msg], Next, w')
  | (inr KeyboardInterrupt, w') => (result_of inst 1, [], Break, w')
  | (inr _, w') => (result_of inst 1, [], SysExit 1, w')
  end.

(** [pythons and inst.py not in pythons] *)
Definition skipped (pythons : list PyVersion) (inst : VenvInstance) : bool :=
  list_truthy pythons && negb (py_in (inst_py inst) pythons).

(** The loop [for inst in self.venv.instances(pattern=pattern)], from the
    results and the output gathered so far. *)
Fixpoint run_loop (insts : list VenvInstance) (pythons : list PyVersion)
    (pass_env : bool) (cmdargs : option string)
    (acc : list VenvInstanceResult) (out : list Printed) (w : World)
  : list VenvInstanceResult * list Printed * Control * World :=
  match insts with
  | [] => (acc, out, Next, w)
  | inst :: rest =>
      if skipped pythons inst
      then run_loop rest pythons pass_env cmdargs acc out w
      else
        let '(result, lines, control, w') :=
          run_instance inst pass_env cmdargs w in
        match control with
        | Next =>
            run_loop rest pythons pass_env cmdargs
              (acc ++ [result]) (out ++ lines) w'
        | _ => (acc ++ [result], out ++ lines, control, w')
        end
  end.

(** The summary block. *)
Definition summary (rs : list VenvInstanceResult) : list Printed :=
  SummaryHeader
    :: map (fun r =>
              SummaryLine (negb (code r =? 0)%Z) (instance r) (pkgstr r))
           rs.

(** [any(True for r in results if r.code != 0)] *)
Definition any_failed (rs : list VenvInstanceResult) : bool :=
  existsb (fun r => negb (code r =? 0)%Z) rs.

(** The part of [Session.run] that starts at the loop over the
    instances: the loop, the summary and the final status. *)
Definition run_instances (insts : list VenvInstance)
    (pythons : list PyVersion) (pass_env : bool)
    (cmdargs : option string) (w : World) : Report * World :=
  let '(rs, out, control, w') :=
    run_loop insts pythons pass_env cmdargs [] [] w in
  match control with
  | SysExit status => (mkReport rs out (SystemExit status), w')
  | _ =>
      (mkReport rs (out ++ summary rs)
         (if any_failed rs then SystemExit 1 else Returned), w')
  end.

(** [Session(venv).run(pattern, ...)] *)
Definition run (venv : Venv) (pattern : Pattern)
    (skip_base_install recreate_venvs pass_env : bool)
    (cmdargs : option string) (pythons : list PyVersion)
    (s : Store) (w : World) : Report * World :=
  let '(t, s1, w1) :=
    generate_base_venvs venv pattern recreate_venvs skip_base_install
      pythons s w in
  match t with
  | Returned =>
      let '(insts, _) := instances venv pattern [] s1 in
      run_instances insts pythons pass_env cmdargs w1
  | _ => (mkReport [] [] t, w1)
  end.

(** *** The commands of an instance, seen from the host *)

(** A call to [subprocess.run] went well: the child exited with 0. *)
Definition succeeded (o : Outcome) : bool :=
  match o with
  | Exited returncode _ => (returncode =? 0)%Z
  | _ => false
  end.

(** The world once the virtualenv of the instance is ready: at once when
    the instance has no package, else after the copy of the base
    virtualenv and the installation of the packages both exited with 0. *)
Definition prepared (inst : VenvInstance) (w w1 : World) : Prop :=
  (dict_nonempty (resolved_pkgs inst) = false /\ w1 = w)
  \/ (dict_nonempty (resolved_pkgs inst) = true
      /\ exists so0 so1 w0,
          subprocess_run (clone_command inst) w = (Exited 0 so0, w0)
          /\ subprocess_run
               (Shell (get_venv_command (venv_name_of inst)
                         (install_line inst)) None) w0
             = (Exited 0 so1, w1)).

(** [stops_at inst pass_env cmdargs w o w']: from the world [w], the
    commands of the instance run in their order (copy, installation,
    test), and the first of them that does not exit with 0 ends as [o],
    leaving the world [w']. *)
Inductive stops_at (inst : VenvInstance) (pass_env : bool)
    (cmdargs : option string) (w : World) : Outcome -> World -> Prop :=
| at_clone o w' :
    dict_nonempty (resolved_pkgs inst) = true ->
    subprocess_run (clone_command inst) w = (o, w') ->
    succeeded o = false ->
    stops_at inst pass_env cmdargs w o w'
| at_install so0 w0 o w' :
    dict_nonempty (resolved_pkgs inst) = true ->
    subprocess_run (clone_command inst) w = (Exited 0 so0, w0) ->
    subprocess_run
      (Shell (get_venv_command (venv_name_of inst) (install_line inst))
             None) w0
    = (o, w') ->
    succeeded o = false ->
    stops_at inst pass_env cmdargs w o w'
| at_test w1 line o w' :
    prepared inst w w1 ->
    str_format (get_venv_command (venv_name_of inst) (inst_command inst))
               cmdargs
    = Some line ->
    subprocess_run
      (Shell line
             (Some (instance_env pass_env inst (resolved_pkgs inst) w1)))
      w1
    = (o, w') ->
    succeeded o = false ->
    stops_at inst pass_env cmdargs w o w'.

(** [passes inst pass_env cmdargs w w']: from the world [w], every command
    of the instance exits with 0, the test command last, leaving [w']. *)
Definition passes (inst : VenvInstance) (pass_env : bool)
    (cmdargs : option string) (w w' : World) : Prop :=
  exists w1 line so,
    prepared inst w w1
    /\ str_format (get_venv_command (venv_name_of inst) (inst_command inst))
                  cmdargs
       = Some line
    /\ subprocess_run
         (Shell line
                (Some (instance_env pass_env inst (resolved_pkgs inst) w1)))
         w1
       = (Exited 0 so, w').

(** The exception an outcome that is not an exit with 0 turns into, up
    to the message. *)
Definition raised_as (o : Outcome) (e : Exn) : Prop :=
  match o, e with
  | Exited rc so, CmdFailure _ code stdout => code = rc /\ stdout = so
  | Interrupted, KeyboardInterrupt => True
  | NotFound, FileNotFoundError => True
  | Crashed, OtherException => True
  | _, _ => False
  end.

(** A [CmdFailure] carries a return code other than 0. *)
Definition failure_code_nonzero {A : Type} (r : (A + Exn) * World) : Prop :=
  match fst r with
  | inr (CmdFailure _ code _) => code <> 0%Z
  | _ => True
  end.
End Session.

(** The order in which the places of a tree yield: a node comes after all
    that lies below it, and the children come in the order of their list.
    [yields_before t1 t2] says that place [t1] comes strictly before [t2]. *)
Fixpoint yields_before (t1 t2 : Path) : bool :=
  match t1, t2 with
  | [], _ => false
  | _ :: _, [] => true
  | i :: r1, j :: r2 => Nat.ltb i j || (Nat.eqb i j && yields_before r1 r2)
  end.

(** [is_below q t]: the place [t] is the place [q] or lies in the subtree
    under it. *)
Fixpoint is_below (q t : Path) : bool :=
  match q, t with
  | [], _ => true
  | _ :: _, [] => false
  | i :: q', j :: t' => Nat.eqb i j && is_below q' t'
  end.

(** [same_place t q]: the two paths are equal. *)
Fixpoint same_place (t q : Path) : bool :=
  match t, q with
  | [], [] => true
  | i :: t', j :: q' => Nat.eqb i j && same_place t' q'
  | _, _ => false
  end.


(** Two tagged instances, the first yielded before the second, respect the
    order of the places: the second's place is not strictly before the
    first's. *)
Definition in_yield_order (u v : Path * VenvInstance) : Prop :=
  yields_before (fst v) (fst u) = false.

(** ** Versions that the name of a virtualenv keeps apart *)

(** [c in s] for a character [c]. *)
Fixpoint has_char (c : ascii) (s : string) : bool :=
  match s with
  | EmptyString => false
  | String a rest => Ascii.eqb a c || has_char c rest
  end.





(** ** Resolution as the specification words it

    The specification describes the resolved node by itself, without the
    default dictionaries: along the chain from the outermost ancestor to
    the node, the last non-empty value of each scalar attribute, and for
    the two mappings the key-wise accumulation where a later entry
    replaces an earlier one.  A node built without a mapping has an empty
    one of its own there. *)

Definition last_truthy_str (values : list (option string)) : option string :=
  fold_left (fun acc o => if str_truthy o then o else acc) values None.

Definition last_truthy_list {A : Type} (values : list (list A)) : list A :=
  fold_left (fun acc l => if list_truthy l then l else acc) values [].

Definition own_mapping {V : Type} (m : Mapping V) : Dict V :=
  match m with
  | Default => []
  | Own d => d
  end.

Definition accumulate {V : Type} (chain : list (Mapping V)) : Dict V :=
  fold_left (fun acc m => dict_update acc (own_mapping m)) chain [].

(** ** Sample configurations *)

Definition match_all : Pattern := fun _ => true.

Definition only_y : Pattern := fun n => String.eqb n "y".

(** [Venv(pys=[3.8], venvs=[Venv(name="a", command="x", pkgs={"p": ["1"]}),
                            Venv(name="b", command="y", pkgs={"q": ["2"]})])] *)
Definition child_a : Venv :=
  mkVenv (Some "a") (Some "x") [] (Own [("p", [Some "1"])]) Default [].

Definition child_b : Venv :=
  mkVenv (Some "b") (Some "y") [] (Own [("q", [Some "2"])]) Default [].

Definition two_children : Venv :=
  mkVenv None None ["3.8"] Default Default [child_a; child_b].

(** [Venv(name="x", command="c", pys=[3.8])] *)
Definition named_root : Venv :=
  mkVenv (Some "x") (Some "c") ["3.8"] Default Default [].

(** [Venv(pys=[3.8], venvs=[Venv(name='', command='c')])] *)
Definition empty_name : Venv :=
  mkVenv (Some EmptyString) (Some "c") [] Default Default [].

Definition above_empty_name : Venv :=
  mkVenv None None ["3.8"] Default Default [empty_name].

(** [Venv(pys=[3.8], venvs=[Venv(name="x", command="c",
                                 venvs=[Venv(name="y", command="c")])])] *)
Definition node_y : Venv := mkVenv (Some "y") (Some "c") [] Default Default [].

Definition node_x : Venv :=
  mkVenv (Some "x") (Some "c") [] Default Default [node_y].

Definition above_x : Venv := mkVenv None None ["3.8"] Default Default [node_x].



(** [Venv(name="m", command="c", pys=[3.7, 3.8],
          pkgs={"p": ["1", "2"]}, env={"E": ["a", "b"]})] *)
Definition matrix : Venv :=
  mkVenv (Some "m") (Some "c") ["3.7"; "3.8"]
         (Own [("p", [Some "1"; Some "2"])])
         (Own [("E", [Literal (Some "a"); Literal (Some "b")])]) [].

(** [Venv(name="r", command="c", pys=[3.8],
          venvs=[Venv(name="k", command="d")])] *)
Definition kid : Venv := mkVenv (Some "k") (Some "d") [] Default Default [].

Definition runnable_parent : Venv :=
  mkVenv (Some "r") (Some "c") ["3.8"] Default Default [kid].

(** [Venv(name='t', command='c', pys=[3.8], pkgs={'pkgA': ['', '>=1.0']})] *)
Definition two_versions : Venv :=
  mkVenv (Some "t") (Some "c") ["3.8"]
         (Own [("pkgA", [Some EmptyString; Some ">=1.0"])]) Default [].














Definition b2 : VenvInstance :=
  mkVenvInstance (Some "t") "3.8" "c" [] [("a", Some "1"); ("b", Some "2")].

Definition plain (n : string) : VenvInstance :=
  mkVenvInstance (Some n) "3.8" "c" [] [].

(** A host that plays a script: each call to [subprocess.run] ends as the
    next outcome of the script says (exit with 0 once the script is over);
    no directory exists, every interpreter is found, the environment is
    empty and the command line has nothing to format. *)
Definition ok : Outcome := Exited 0 EmptyString.

Definition exit2 : Outcome := Exited 2 EmptyString.

Definition scripted : Host := {|
  World := list Outcome;
  subprocess_run := fun _ w =>
    match w with
    | o :: w' => (o, w')
    | [] => (ok, [])
    end;
  os_path_isdir := fun _ _ => false;
  shutil_which := fun p _ => Some p;
  os_environ := fun _ => [];
  str_format := fun cmd _ => Some cmd
|}.

(** ** [Session.list_venvs] *)

(** [str(x)] for an optional string: [None] prints as [None]. *)
Definition str_opt (o : option string) : string :=
  match o with
  | Some s => s
  | None => "None"
  end.

Section Listing.
(** [str(f)] for a function object, which the model does not fix. *)
Variable repr_callable : (Dict string -> option string) -> string.

Definition str_env_value (v : EnvValue) : string :=
  match v with
  | Literal l => str_opt l
  | Callable f => repr_callable f
  end.

(** [get_env_str(envs)]: [" ".join(f"{k}={v}" for k, v in envs)] *)
Definition get_env_str (envs : list (string * EnvValue)) : string :=
  join " "
    (map (fun kv =>
            String.append (fst kv)
              (String.append "=" (str_env_value (snd kv))))
         envs).

(** The package summary of [list_venvs]:
    [" ".join(f"'{get_pep_dep(name, version)}'" for name, version in
    inst.pkgs)], over the assignments as they are, [None] included. *)
Definition list_pkgs_str (inst : VenvInstance) : string :=
  join " "
    (map (fun nv =>
            String.append "'"
              (String.append (get_pep_dep (fst nv) (str_opt (snd nv))) "'"))
         (inst_pkgs inst)).

(** The line [f"{inst.name} {env_str} {py_str} {pkgs_str}"]. *)
Definition list_line (inst : VenvInstance) : string :=
  String.append (str_opt (inst_name inst))
    (String.append " "
       (String.append (get_env_str (inst_env inst))
          (String.append " "
             (String.append (String.append "Python " (inst_py inst))
                (String.append " " (list_pkgs_str inst)))))).

(** [Session(venv).list_venvs(pattern)]: the lines printed. *)
Definition list_venvs (venv : Venv) (pattern : Pattern) (s : Store)
  : list string :=
  map list_line (fst (instances venv pattern [] s)).
End Listing.

(** ** Places the walk reaches *)

(** [reachable pattern v t]: the path [t] leads from [v] to a node, and no
    node on the way, [v] apart, has a name that the pattern refuses. *)
Fixpoint reachable (pattern : Pattern) (v : Venv) (t : Path) : bool :=
  match t with
  | [] => true
  | i :: rest =>
      match nth_error (venvs v) i with
      | Some child =>
          negb (mismatch pattern child) && reachable pattern child rest
      | None => false
      end
  end.

(** A name the enumeration from a root may give to an instance: none, the
    name of the root, or a name that the pattern matches. *)
Definition selected_name (pattern : Pattern) (root : Venv)
    (o : option string) : Prop :=
  o = None \/ o = name root \/ exists nm, o = Some nm /\ pattern nm = true.

(** The instances the loop of [Session.run] does not pass over. *)
Definition selected (pythons : list PyVersion) (insts : list VenvInstance)
  : list VenvInstance :=
  filter (fun inst => negb (skipped pythons inst)) insts.

(** ** More sample data *)

(** A host where every directory exists; commands end as on [scripted]. *)
Definition provisioned : Host := {|
  World := list Outcome;
  subprocess_run := fun _ w =>
    match w with
    | o :: w' => (o, w')
    | [] => (ok, [])
    end;
  os_path_isdir := fun _ _ => true;
  shutil_which := fun p _ => Some p;
  os_environ := fun _ => [("HOME", "/root")];
  str_format := fun cmd _ => Some cmd
|}.

Definition with_env : VenvInstance :=
  mkVenvInstance (Some "e") "3.8" "c"
    [("A", Literal (Some "1")); ("B", Literal None); ("A", Literal (Some "2"))]
    [].

Definition left_out : VenvInstance :=
  mkVenvInstance (Some "n") "3.8" "c" [] [("p", None); ("q", None)].

(** [Venv(name="z", command="c", pys=[3.8], pkgs={"p": ["1"], "q": []})] *)
Definition empty_axis : Venv :=
  mkVenv (Some "z") (Some "c") ["3.8"]
         (Own [("p", [Some "1"]); ("q", [])]) Default [].

(** The store in which the walk from [v] resolves the node at the place
    [t]: on the way down, the store that the children before the one
    entered have left; at the node, the store that its own children have
    left. *)
Fixpoint store_at (pattern : Pattern) (v : Venv) (ps : list Venv) (t : Path)
    (s : Store) : Store :=
  match t with
  | [] =>
      snd (children_instances pattern
             (fun venv s' => instances venv pattern (ps ++ [v]) s')
             (venvs v) s)
  | i :: rest =>
      match nth_error (venvs v) i with
      | Some child =>
          store_at pattern child (ps ++ [v]) rest
            (snd (children_instances pattern
                    (fun venv s' => instances venv pattern (ps ++ [v]) s')
                    (firstn i (venvs v)) s))
      | None => s
      end
  end.

Definition instance_b : VenvInstance :=
  mkVenvInstance (Some "b") "3.8" "y" [] [("p", Some "1"); ("q", Some "2")].

(* ================================================================== *)
(** * Properties *)

(** ** [itertools.product] and [expand_specs] *)

Section ProductFacts.
Variable A : Type.

Lemma product_step_length (result : list (list A)) (pool : list A) :
  List.length (product_step result pool)
  = List.length result * List.length pool.
Proof.
  unfold product_step.
  induction result as [|x result IH]; simpl.
  - reflexivity.
  - rewrite length_app, length_map, IH. reflexivity.
Qed.

Lemma product_from_length (pools : list (list A)) :
  forall acc,
    List.length (fold_left (@product_step A) pools acc)
    = List.length acc
      * fold_right (fun pool n => List.length pool * n) 1 pools.
Proof.
  induction pools as [|pool pools IH]; intros acc; simpl.
  - lia.
  - rewrite IH, product_step_length. lia.
Qed.

Lemma product_step_In (result : list (list A)) (pool : list A)
    (c : list A) :
  In c (product_step result pool) ->
  exists x y, In x result /\ In y pool /\ c = x ++ [y].
Proof.
  unfold product_step. intros H.
  apply in_flat_map in H. destruct H as [x [Hx H]].
  apply in_map_iff in H. destruct H as [y [Hc Hy]].
  exists x, y. auto.
Qed.

(** Every combination takes one element of each pool, pool by pool. *)
Lemma product_from_In (pools : list (list A)) :
  forall acc c,
    In c (fold_left (@product_step A) pools acc) ->
    exists x ys,
      In x acc /\ c = x ++ ys /\ Forall2 (fun y pool => In y pool) ys pools.
Proof.
  induction pools as [|pool pools IH]; intros acc c H; simpl in H.
  - exists c, []. rewrite app_nil_r. auto.
  - apply IH in H. destruct H as [x [ys [Hx [Hc Hys]]]].
    apply product_step_In in Hx. destruct Hx as [x0 [y [Hx0 [Hy Hx]]]].
    exists x0, (y :: ys). subst x. rewrite <- app_assoc in Hc.
    split; [assumption|]. split; [assumption|].
    constructor; assumption.
Qed.

Lemma product_In (pools : list (list A)) (c : list A) :
  In c (product pools) -> Forall2 (fun y pool => In y pool) c pools.
Proof.
  unfold product. intros H. apply product_from_In in H.
  destruct H as [x [ys [[Hx|[]] [Hc Hys]]]]. subst x c. assumption.
Qed.
End ProductFacts.

Section ExpandSpecsFacts.
Variable V : Type.

Lemma picks_from_keys (specs : Dict (list V)) (combo : list (string * V)) :
  picks_from specs combo -> map fst combo = dict_keys specs.
Proof.
  unfold picks_from, dict_keys.
  induction 1 as [|item pair specs' combo' [Hk _] _ IH]; simpl.
  - reflexivity.
  - rewrite Hk, IH. reflexivity.
Qed.

Lemma expand_specs_length (specs : Dict (list V)) :
  List.length (expand_specs specs) = axes_size specs.
Proof.
  unfold expand_specs, product, dict_items, axes_size.
  rewrite product_from_length. simpl. rewrite Nat.add_0_r.
  induction specs as [|item specs IH]; simpl.
  - reflexivity.
  - rewrite length_map, IH. reflexivity.
Qed.

Lemma expand_specs_picks (specs : Dict (list V)) (combo : list (string * V)) :
  In combo (expand_specs specs) -> picks_from specs combo.
Proof.
  unfold expand_specs, dict_items, picks_from. intros H.
  apply product_In in H. revert combo H.
  induction specs as [|item specs IH]; intros combo H; simpl in H.
  - inversion H. constructor.
  - inversion H as [|pair pool combo' pools Hpair Hrest]; subst.
    constructor.
    + apply in_map_iff in Hpair. destruct Hpair as [val [Hp Hval]].
      subst pair. simpl. auto.
    + apply IH. assumption.
Qed.
End ExpandSpecsFacts.

(** C7.  For every mapping from axis names to candidate lists (non-empty
    or not), [expand_specs] produces as many combinations as the product of
    the lengths of the candidate lists; every combination is a list of
    (axis, value) pairs with the axes of the mapping in their insertion
    order and each value one of its axis's candidates; and the empty
    mapping gives exactly one combination, the empty one. *)
Theorem expand_specs_cartesian (V : Type) (specs : Dict (list V)) :
  List.length (expand_specs specs) = axes_size specs
  /\ Forall (fun combo =>
               map fst combo = dict_keys specs /\ picks_from specs combo)
            (expand_specs specs)
  /\ expand_specs (@nil (string * list V)) = [[]].
Proof.
  split; [apply expand_specs_length|]. split; [|reflexivity].
  apply Forall_forall. intros combo H.
  apply expand_specs_picks in H. split; [|assumption].
  apply picks_from_keys. assumption.
Qed.

(** ** The tree walk *)

Lemma instances_unfold (self : Venv) (pattern : Pattern)
    (parents : list Venv) (s : Store) :
  instances self pattern parents s
  = let '(yielded, s1) :=
      children_instances pattern
        (fun venv s' => instances venv pattern (parents ++ [self]) s')
        (venvs self) s in
    let '(resolved, s2) := resolve self parents s1 in
    (yielded ++ expand resolved s2, s2).
Proof. destruct self; reflexivity. Qed.

Lemma instances_from_unfold (self : Venv) (pattern : Pattern)
    (parents : list Venv) (s : Store) :
  instances_from self pattern parents s
  = let '(yielded, s1) :=
      children_from pattern
        (fun venv s' => instances_from venv pattern (parents ++ [self]) s')
        0 (venvs self) s in
    let '(resolved, s2) := resolve self parents s1 in
    (yielded ++ map here (expand resolved s2), s2).
Proof. destruct self; reflexivity. Qed.

(** Forgetting the places gives back the generator of the source. *)
Lemma children_from_erase (pattern : Pattern)
    (enter : Venv -> Store -> list VenvInstance * Store)
    (enter' : Venv -> Store -> list (Path * VenvInstance) * Store)
    (vs : list Venv) :
  Forall (fun v => forall s,
            enter v s = (map snd (fst (enter' v s)), snd (enter' v s))) vs ->
  forall i s,
    children_instances pattern enter vs s
    = (map snd (fst (children_from pattern enter' i vs s)),
       snd (children_from pattern enter' i vs s)).
Proof.
  induction 1 as [|v vs Hv _ IH]; intros i s; simpl.
  - reflexivity.
  - destruct (mismatch pattern v).
    + apply IH.
    + rewrite Hv. destruct (enter' v s) as [l s']. simpl.
      rewrite (IH (S i) s').
      destruct (children_from pattern enter' (S i) vs s') as [l' s''].
      simpl. rewrite map_app, map_map. f_equal.
Qed.

Lemma instances_from_erase (pattern : Pattern) (self : Venv) :
  forall parents s,
    instances self pattern parents s
    = (map snd (fst (instances_from self pattern parents s)),
       snd (instances_from self pattern parents s)).
Proof.
  induction self as [n c p k e vs IH] using Venv_ind. intros parents s.
  rewrite instances_unfold, instances_from_unfold.
  set (self := mkVenv n c p k e vs).
  rewrite (@children_from_erase pattern _
             (fun venv s' => instances_from venv pattern (parents ++ [self]) s')
             (venvs self)) with (i := 0).
  - destruct (children_from _ _ 0 (venvs self) s) as [l s1]. simpl.
    destruct (resolve self parents s1) as [resolved s2]. simpl.
    rewrite map_app, map_map. simpl. rewrite map_id. reflexivity.
  - simpl. revert IH. apply Forall_impl. intros v Hv s'. apply Hv.
Qed.

(** What the loop over the children yields comes from a child that was
    entered, under the index of that child. *)
Lemma children_from_In (pattern : Pattern)
    (enter : Venv -> Store -> list (Path * VenvInstance) * Store)
    (vs : list Venv) :
  forall i s t x,
    In (t, x) (fst (children_from pattern enter i vs s)) ->
    exists j child s' t',
      nth_error vs j = Some child /\ mismatch pattern child = false
      /\ t = (i + j) :: t' /\ In (t', x) (fst (enter child s')).
Proof.
  induction vs as [|v vs IH]; intros i s t x H; simpl in H.
  - contradiction.
  - destruct (mismatch pattern v) eqn:Hm.
    + apply IH in H. destruct H as [j [child [s' [t' [Hn [Hc [Ht Hin]]]]]]].
      exists (S j), child, s', t'. simpl. repeat split; auto.
      rewrite Ht. f_equal. lia.
    + destruct (enter v s) as [l s1] eqn:He.
      destruct (children_from pattern enter (S i) vs s1) as [l' s2] eqn:Hr.
      simpl in H. apply in_app_or in H. destruct H as [H|H].
      * apply in_map_iff in H. destruct H as [[t0 x0] [Heq Hin]].
        unfold via in Heq. simpl in Heq. inversion Heq; subst.
        exists 0, v, s, t0. simpl. rewrite He. simpl.
        repeat split; auto. f_equal. lia.
      * assert (Hin : In (t, x) (fst (children_from pattern enter (S i) vs s1)))
          by (rewrite Hr; exact H).
        apply IH in Hin.
        destruct Hin as [j [child [s' [t' [Hn [Hc [Ht Hin]]]]]]].
        exists (S j), child, s', t'. simpl. repeat split; auto.
        rewrite Ht. f_equal. lia.
Qed.

(** The instances of a node are those its children yield, under the index
    of the child, and those it expands itself, at the empty path. *)
Lemma instances_from_In (pattern : Pattern) (self : Venv)
    (parents : list Venv) (s : Store) (t : Path) (x : VenvInstance) :
  In (t, x) (fst (instances_from self pattern parents s)) ->
  (exists j child s' t',
      nth_error (venvs self) j = Some child /\ mismatch pattern child = false
      /\ t = j :: t'
      /\ In (t', x)
           (fst (instances_from child pattern (parents ++ [self]) s')))
  \/ (t = []
      /\ exists s1, In x (expand (fst (resolve self parents s1))
                                (snd (resolve self parents s1)))).
Proof.
  rewrite instances_from_unfold.
  destruct (children_from _ _ 0 (venvs self) s) as [l s1] eqn:Hk.
  destruct (resolve self parents s1) as [resolved s2] eqn:Hr.
  simpl. intros H. apply in_app_or in H. destruct H as [H|H].
  - left.
    assert (Hin : In (t, x) (fst (children_from pattern
              (fun venv s' => instances_from venv pattern (parents ++ [self]) s')
              0 (venvs self) s))) by (rewrite Hk; exact H).
    apply children_from_In in Hin.
    destruct Hin as [j [child [s' [t' [Hn [Hc [Ht Hin]]]]]]].
    exists j, child, s', t'. auto.
  - right. apply in_map_iff in H. destruct H as [x0 [Heq Hin]].
    unfold here in Heq. inversion Heq; subst. split; [reflexivity|].
    exists s1. rewrite Hr. exact Hin.
Qed.

Lemma is_below_app (q t : Path) :
  is_below q t = true <-> exists r, t = q ++ r.
Proof.
  revert t. induction q as [|i q IH]; intros t; simpl.
  - split; [exists t; reflexivity | reflexivity].
  - destruct t as [|j t].
    + split; [discriminate | intros [r Hr]; discriminate].
    + rewrite andb_true_iff, Nat.eqb_eq, IH. split.
      * intros [Hij [r Hr]]. exists r. subst. reflexivity.
      * intros [r Hr]. inversion Hr; subst.
        split; [reflexivity | exists r; reflexivity].
Qed.

Lemma same_place_eq (t q : Path) : same_place t q = true <-> t = q.
Proof.
  revert q. induction t as [|i t IH]; intros [|j q]; simpl;
    try (split; [discriminate | congruence]); try tauto.
  rewrite andb_true_iff, Nat.eqb_eq, IH. split.
  - intros [-> ->]. reflexivity.
  - intros H. inversion H. auto.
Qed.

(** *** Pruning *)

Lemma pruned_below (pattern : Pattern) (v : Venv) :
  forall parents s q ps n,
    q <> [] ->
    subtree_at v parents q = Some (ps, n) ->
    mismatch pattern n = true ->
    forall t x,
      In (t, x) (fst (instances_from v pattern parents s)) ->
      is_below q t = false.
Proof.
  induction v as [nm c p k e vs IH] using Venv_ind.
  intros parents s q ps n Hq Hsub Hm t x Hin.
  destruct q as [|i q']; [congruence|]. simpl in Hsub.
  destruct (nth_error vs i) as [child|] eqn:Hnth; [|discriminate].
  apply instances_from_In in Hin.
  destruct Hin as [[j [child' [s' [t' [Hn [Hc [Ht Hin]]]]]]] | [Ht _]];
    subst t; simpl; [|reflexivity].
  destruct (Nat.eqb i j) eqn:Hij; [|reflexivity]. simpl.
  apply Nat.eqb_eq in Hij. subst j. simpl in Hn. rewrite Hnth in Hn.
  inversion Hn; subst child'.
  destruct q' as [|i' q''].
  - simpl in Hsub. inversion Hsub; subst. congruence.
  - rewrite Forall_forall in IH.
    eapply (IH child (nth_error_In _ _ Hnth)); eauto. discriminate.
Qed.

(** C4 (amended).  For every node of the tree other than the root, whose
    name is a non-empty string that the pattern does not match, the
    enumeration from the root yields no instance from that node nor from
    any node of the subtree under it, whatever the names in that subtree.
    [q] is the place of the node; by [instances_from_erase] the tagged
    enumeration is the enumeration of the source. *)
Theorem mismatched_child_is_pruned (root : Venv) (pattern : Pattern)
    (s : Store) (q : Path) (ps : list Venv) (n : Venv) (nm : string) :
  q <> [] ->
  subtree_at root [] q = Some (ps, n) ->
  name n = Some nm ->
  nm <> EmptyString ->
  pattern nm = false ->
  Forall (fun tx => is_below q (fst tx) = false)
         (fst (instances_from root pattern [] s)).
Proof.
  intros Hq Hsub Hname Hnm Hpat. apply Forall_forall. intros [t x] Hin. simpl.
  apply (@pruned_below pattern root [] s q ps n Hq Hsub) with (x := x); auto.
  unfold mismatch. rewrite Hname, Hpat.
  destruct (String.eqb nm EmptyString) eqn:He; [|reflexivity].
  apply String.eqb_eq in He. contradiction.
Qed.

(** *** [resolve]: the scalar attributes do not depend on the store *)

Lemma resolve_step_fst (v : Venv) (s s' : Store) (parent : Venv) :
  fst (resolve_step (v, s) parent) = fst (resolve_step (v, s') parent).
Proof. reflexivity. Qed.





(** ** Dictionaries *)

Section DictFacts.
Variable V : Type.
Implicit Types (d o : Dict V) (k : string) (v : V).

Lemma dict_get_set k k' v d :
  dict_get k (dict_set k' v d)
  = if String.eqb k k' then Some v else dict_get k d.
Proof.
  induction d as [|[k0 v0] d IH]; simpl.
  - destruct (String.eqb k k'); reflexivity.
  - destruct (String.eqb k' k0) eqn:H0; simpl.
    + apply String.eqb_eq in H0. subst k0.
      destruct (String.eqb k k'); reflexivity.
    + destruct (String.eqb k k0) eqn:H1.
      * apply String.eqb_eq in H1. subst k0.
        rewrite String.eqb_sym in H0. rewrite H0. reflexivity.
      * exact IH.
Qed.




(** Updating a dictionary with its own items changes nothing, which is
    why [update_default] leaves the default dictionary as it is when the
    source is that same dictionary. *)
Lemma dict_set_same k v d :
  dict_get k d = Some v -> dict_set k v d = d.
Proof.
  induction d as [|[k0 v0] d IH]; simpl; intros H; [discriminate|].
  destruct (String.eqb k k0) eqn:H0.
  - inversion H; subst. reflexivity.
  - rewrite IH by assumption. reflexivity.
Qed.

Lemma dict_update_sub o :
  forall d,
    (forall k v, In (k, v) o -> dict_get k d = Some v) ->
    dict_update d o = d.
Proof.
  unfold dict_update, dict_items.
  induction o as [|[k0 v0] o IH]; simpl; intros d H; [reflexivity|].
  rewrite dict_set_same by (apply H; left; reflexivity).
  apply IH. intros k v Hin. apply H. right. assumption.
Qed.

Lemma dict_get_In k v d :
  NoDup (dict_keys d) -> In (k, v) d -> dict_get k d = Some v.
Proof.
  induction d as [|[k0 v0] d IH]; simpl; intros Hnd Hin; [contradiction|].
  inversion Hnd as [|? ? Hnotin Hnd']; subst.
  destruct Hin as [Heq|Hin].
  - inversion Heq; subst. rewrite String.eqb_refl. reflexivity.
  - destruct (String.eqb k k0) eqn:H0.
    + apply String.eqb_eq in H0. subst k0. exfalso. apply Hnotin.
      unfold dict_keys. apply in_map_iff. exists (k, v). auto.
    + apply IH; assumption.
Qed.

Lemma dict_update_self d : NoDup (dict_keys d) -> dict_update d d = d.
Proof.
  intros Hnd. apply dict_update_sub. intros k v Hin.
  apply dict_get_In; assumption.
Qed.


End DictFacts.

(** ** [resolve] *)

Lemma resolve_nonempty (self : Venv) (parents : list Venv) (s : Store) :
  parents <> [] ->
  resolve self parents s
  = fold_left resolve_step (parents ++ [self]) (new_Venv, s).
Proof. destruct parents; [congruence | reflexivity]. Qed.

(** The store through the loop: both default dictionaries are updated with
    the mappings of the chain, one node after the other. *)
Lemma resolve_fold_store (l : list Venv) :
  forall v s,
    snd (fold_left resolve_step l (v, s))
    = mkStore (fold_left update_default (map pkgs l) (default_pkgs s))
              (fold_left update_default (map env l) (default_env s)).
Proof.
  induction l as [|parent l IH]; intros v s; simpl.
  - destruct s; reflexivity.
  - rewrite IH. reflexivity.
Qed.

(** The node that [resolve] builds refers to the default dictionaries and
    has no children. *)
Lemma resolve_fold_refs (l : list Venv) :
  forall v s,
    pkgs (fst (fold_left resolve_step l (v, s))) = pkgs v
    /\ env (fst (fold_left resolve_step l (v, s))) = env v
    /\ venvs (fst (fold_left resolve_step l (v, s))) = venvs v.
Proof.
  induction l as [|parent l IH]; intros v s; cbn [fold_left].
  - auto.
  - rewrite (surjective_pairing (resolve_step (v, s) parent)).
    destruct (IH (fst (resolve_step (v, s) parent))
                 (snd (resolve_step (v, s) parent))) as [H1 [H2 H3]].
    rewrite H1, H2, H3.
    unfold resolve_step.
    destruct (str_truthy (name parent)), (list_truthy (pys parent)),
      (str_truthy (command parent)); simpl; auto.
Qed.






(** *** Places and ancestor chains *)




(** *** The order of the enumeration *)

Lemma yields_before_irrefl (t : Path) : yields_before t t = false.
Proof.
  induction t as [|i t IH]; simpl; [reflexivity|].
  rewrite Nat.ltb_irrefl, Nat.eqb_refl, IH. reflexivity.
Qed.

Lemma yields_before_below (q : Path) (i : nat) (r : Path) :
  yields_before (q ++ i :: r) q = true.
Proof.
  induction q as [|j q IH]; simpl; [reflexivity|].
  rewrite Nat.eqb_refl, IH. apply orb_true_r.
Qed.

Lemma yields_before_siblings (q : Path) (i j : nat) (r r' : Path) :
  i < j -> yields_before (q ++ i :: r) (q ++ j :: r') = true.
Proof.
  intros Hij. induction q as [|k q IH]; simpl.
  - apply Nat.ltb_lt in Hij. rewrite Hij. reflexivity.
  - rewrite Nat.eqb_refl, IH. apply orb_true_r.
Qed.

(** A list of tagged instances is in yield order when no element comes
    after one that its place is strictly before. *)
Lemma FOP_app (A : Type) (R : A -> A -> Prop) (l1 l2 : list A) :
  ForallOrdPairs R l1 -> ForallOrdPairs R l2 ->
  (forall u v, In u l1 -> In v l2 -> R u v) ->
  ForallOrdPairs R (l1 ++ l2).
Proof.
  intros H1 H2 H. induction H1 as [|a l1 Ha H1 IH]; simpl.
  - assumption.
  - constructor.
    + apply Forall_app. split; [assumption|].
      apply Forall_forall. intros v Hv. apply H; [left; reflexivity | assumption].
    + apply IH. intros u v Hu Hv. apply H; [right|]; assumption.
Qed.

Lemma FOP_map (A B : Type) (f : A -> B) (R : B -> B -> Prop) (l : list A) :
  ForallOrdPairs (fun u v => R (f u) (f v)) l -> ForallOrdPairs R (map f l).
Proof.
  induction 1 as [|a l Ha _ IH]; simpl; constructor; auto.
  rewrite Forall_map. assumption.
Qed.

Lemma FOP_nth (A : Type) (R : A -> A -> Prop) (l : list A) :
  ForallOrdPairs R l ->
  forall a b u v,
    a < b -> nth_error l a = Some u -> nth_error l b = Some v -> R u v.
Proof.
  induction 1 as [|x l Hx _ IH]; intros a b u v Hab Ha Hb.
  - destruct a; discriminate.
  - destruct b as [|b]; [lia|]. simpl in Hb. destruct a as [|a].
    + simpl in Ha. inversion Ha; subst x.
      rewrite Forall_forall in Hx. apply Hx. eapply nth_error_In; eauto.
    + simpl in Ha. apply (IH a b); auto. lia.
Qed.

Lemma FOP_impl (A : Type) (R R' : A -> A -> Prop) (l : list A) :
  (forall u v, R u v -> R' u v) -> ForallOrdPairs R l -> ForallOrdPairs R' l.
Proof.
  intros H. induction 1 as [|a l Ha _ IH]; constructor; auto.
  revert Ha. apply Forall_impl. auto.
Qed.

Lemma FOP_total (A : Type) (R : A -> A -> Prop) (l : list A) :
  (forall u v, R u v) -> ForallOrdPairs R l.
Proof.
  intros H. induction l; constructor; auto.
  apply Forall_forall. auto.
Qed.

Lemma children_from_ordered (pattern : Pattern)
    (enter : Venv -> Store -> list (Path * VenvInstance) * Store)
    (vs : list Venv) :
  Forall (fun v => forall s, ForallOrdPairs in_yield_order (fst (enter v s)))
         vs ->
  forall i s,
    ForallOrdPairs in_yield_order (fst (children_from pattern enter i vs s)).
Proof.
  induction 1 as [|v vs Hv _ IH]; intros i s; simpl.
  - constructor.
  - destruct (mismatch pattern v); [apply IH|].
    pose proof (Hv s) as Hl.
    destruct (enter v s) as [l s1]. simpl in Hl.
    pose proof (IH (S i) s1) as Hl'.
    pose proof (@children_from_In pattern enter vs (S i) s1) as Hheads.
    destruct (children_from pattern enter (S i) vs s1) as [l' s2].
    simpl in *. apply FOP_app.
    + apply FOP_map. revert Hl. apply FOP_impl. intros u w.
      unfold in_yield_order, via. simpl.
      rewrite Nat.ltb_irrefl, Nat.eqb_refl. auto.
    + assumption.
    + intros u [t x] Hu Hw. apply in_map_iff in Hu.
      destruct Hu as [u0 [Hu0 _]]. subst u.
      apply Hheads in Hw. destruct Hw as [j [_ [_ [t' [_ [_ [Ht _]]]]]]].
      subst t. unfold in_yield_order, via. cbn [fst snd yields_before].
      assert (H1 : Nat.ltb (S (i + j)) i = false) by (apply Nat.ltb_ge; lia).
      assert (H2 : Nat.eqb (S (i + j)) i = false) by (apply Nat.eqb_neq; lia).
      rewrite H1, H2. reflexivity.
Qed.

Lemma instances_from_ordered (pattern : Pattern) (v : Venv) :
  forall parents s,
    ForallOrdPairs in_yield_order (fst (instances_from v pattern parents s)).
Proof.
  induction v as [nm c p k e vs IH] using Venv_ind. intros parents s.
  rewrite instances_from_unfold.
  set (self := mkVenv nm c p k e vs).
  pose proof (@children_from_ordered pattern
                (fun venv s' => instances_from venv pattern (parents ++ [self]) s')
                (venvs self)) as Hk.
  assert (Hall : Forall (fun v => forall s0,
              ForallOrdPairs in_yield_order
                (fst (instances_from v pattern (parents ++ [self]) s0)))
            (venvs self)).
  { simpl. revert IH. apply Forall_impl. intros v Hv s0. apply Hv. }
  specialize (Hk Hall 0 s).
  destruct (children_from _ _ 0 (venvs self) s) as [l s1]. simpl in Hk.
  destruct (resolve self parents s1) as [resolved s2]. simpl.
  apply FOP_app.
  - assumption.
  - apply FOP_map. apply FOP_total. intros u w. reflexivity.
  - intros u w _ Hw. apply in_map_iff in Hw. destruct Hw as [x [Hx _]].
    subst w. reflexivity.
Qed.

Lemma yield_order_positions (pattern : Pattern) (root : Venv)
    (parents : list Venv) (s : Store) (a b : nat) (t1 t2 : Path)
    (x y : VenvInstance) :
  nth_error (fst (instances_from root pattern parents s)) a = Some (t1, x) ->
  nth_error (fst (instances_from root pattern parents s)) b = Some (t2, y) ->
  yields_before t1 t2 = true ->
  a < b.
Proof.
  intros Ha Hb Hlt.
  destruct (Nat.lt_trichotomy a b) as [H|[H|H]]; [assumption| |].
  - subst b. rewrite Ha in Hb. inversion Hb; subst.
    rewrite yields_before_irrefl in Hlt. discriminate.
  - pose proof (@FOP_nth _ _ _ (@instances_from_ordered pattern root parents s)
                  b a _ _ H Hb Ha) as Hord.
    unfold in_yield_order in Hord. simpl in Hord. congruence.
Qed.

(** C10.  In the enumeration from the root, every instance yielded from
    the subtree of a child of a node (place [q ++ i :: r]) comes before
    every instance that the node (place [q]) expands itself, and the
    instances from the subtrees of two children come in the order of the
    children in the list. *)
Theorem children_yield_before_parent (root : Venv) (pattern : Pattern)
    (s : Store) :
  (forall a b q i r x y,
      nth_error (fst (instances_from root pattern [] s)) a
      = Some (q ++ i :: r, x) ->
      nth_error (fst (instances_from root pattern [] s)) b = Some (q, y) ->
      a < b)
  /\ (forall a b q i j r r' x y,
        nth_error (fst (instances_from root pattern [] s)) a
        = Some (q ++ i :: r, x) ->
        nth_error (fst (instances_from root pattern [] s)) b
        = Some (q ++ j :: r', y) ->
        i < j ->
        a < b).
Proof.
  split.
  - intros a b q i r x y Ha Hb.
    eapply yield_order_positions; eauto. apply yields_before_below.
  - intros a b q i j r r' x y Ha Hb Hij.
    eapply yield_order_positions; eauto. apply yields_before_siblings.
    assumption.
Qed.

(** ** The expansion of a runnable node *)

Section FlatMapIndex.
Variables A B : Type.
Variable f : A -> list B.
Variable n : nat.

Lemma flat_map_uniform_length (l : list A) :
  Forall (fun a => List.length (f a) = n) l ->
  List.length (flat_map f l) = List.length l * n.
Proof.
  induction 1 as [|a l Ha _ IH]; simpl.
  - reflexivity.
  - rewrite length_app, Ha, IH. reflexivity.
Qed.

Lemma flat_map_uniform_nth (l : list A) :
  Forall (fun a => List.length (f a) = n) l ->
  forall i k a,
    nth_error l i = Some a -> k < n ->
    nth_error (flat_map f l) (i * n + k) = nth_error (f a) k.
Proof.
  induction 1 as [|a0 l Ha _ IH]; intros i k a Hi Hk.
  - destruct i; discriminate.
  - destruct i as [|i]; simpl in Hi |- *.
    + inversion Hi; subst a0. apply nth_error_app1. lia.
    + rewrite nth_error_app2 by lia.
      replace (n + i * n + k - List.length (f a0)) with (i * n + k) by lia.
      apply IH; assumption.
Qed.
End FlatMapIndex.

Lemma expand_runnable (resolved : Venv) (s : Store) (cmd : string) :
  command resolved = Some cmd ->
  runnable resolved = true ->
  expand resolved s
  = flat_map (fun e =>
      flat_map (fun py =>
        map (fun p => mkVenvInstance (name resolved) py cmd e p)
            (expand_specs (deref_pkgs s (pkgs resolved))))
        (pys resolved))
      (expand_specs (deref_env s (env resolved))).
Proof. unfold expand. intros -> ->. reflexivity. Qed.

Lemma expand_length (resolved : Venv) (s : Store) (cmd : string) :
  command resolved = Some cmd ->
  runnable resolved = true ->
  List.length (expand resolved s)
  = List.length (expand_specs (deref_env s (env resolved)))
    * List.length (pys resolved)
    * List.length (expand_specs (deref_pkgs s (pkgs resolved))).
Proof.
  intros Hc Hr. rewrite (@expand_runnable resolved s cmd Hc Hr).
  set (K := expand_specs (deref_pkgs s (pkgs resolved))).
  set (P := pys resolved).
  rewrite flat_map_uniform_length
    with (n := List.length P * List.length K).
  - lia.
  - apply Forall_forall. intros e _.
    rewrite flat_map_uniform_length with (n := List.length K);
      [reflexivity|].
    apply Forall_forall. intros py _. apply length_map.
Qed.

Lemma expand_nth (resolved : Venv) (s : Store) (cmd : string)
    (i j k : nat) (e : list (string * EnvValue)) (py : PyVersion)
    (p : list (string * Version)) :
  command resolved = Some cmd ->
  runnable resolved = true ->
  nth_error (expand_specs (deref_env s (env resolved))) i = Some e ->
  nth_error (pys resolved) j = Some py ->
  nth_error (expand_specs (deref_pkgs s (pkgs resolved))) k = Some p ->
  nth_error (expand resolved s)
    ((i * List.length (pys resolved) + j)
     * List.length (expand_specs (deref_pkgs s (pkgs resolved))) + k)
  = Some (mkVenvInstance (name resolved) py cmd e p).
Proof.
  intros Hc Hr Hi Hj Hk. rewrite (@expand_runnable resolved s cmd Hc Hr).
  set (K := expand_specs (deref_pkgs s (pkgs resolved))) in *.
  set (P := pys resolved) in *.
  assert (Hk' : k < List.length K) by (apply nth_error_Some; congruence).
  assert (Hj' : j < List.length P) by (apply nth_error_Some; congruence).
  replace ((i * List.length P + j) * List.length K + k)
    with (i * (List.length P * List.length K) + (j * List.length K + k))
    by nia.
  rewrite flat_map_uniform_nth
    with (n := List.length P * List.length K) (a := e).
  - rewrite flat_map_uniform_nth with (n := List.length K) (a := py).
    + apply map_nth_error. assumption.
    + apply Forall_forall. intros py' _. apply length_map.
    + assumption.
    + assumption.
  - apply Forall_forall. intros e' _.
    rewrite flat_map_uniform_length with (n := List.length K);
      [reflexivity|].
    apply Forall_forall. intros py' _. apply length_map.
  - assumption.
  - nia.
Qed.

(** C6.  When the resolved form of a node is runnable, what the node
    yields after its children is one instance for every triple of a
    combination of the environment axes, an interpreter and a combination
    of the package axes of the resolved node: as many instances as there
    are triples, and the instance of the triple of indices [(i, j, k)]
    at position [(i * #interpreters + j) * #package-combinations + k], so
    that environment combinations vary slowest and package combinations
    fastest. *)
Theorem runnable_node_yields_triples (self : Venv) (pattern : Pattern)
    (parents : list Venv) (s : Store) (cmd : string) :
  let kids :=
    children_instances pattern
      (fun venv s' => instances venv pattern (parents ++ [self]) s')
      (venvs self) s in
  let resolved := fst (resolve self parents (snd kids)) in
  let s2 := snd (resolve self parents (snd kids)) in
  let envs := expand_specs (deref_env s2 (env resolved)) in
  let combos := expand_specs (deref_pkgs s2 (pkgs resolved)) in
  command resolved = Some cmd ->
  runnable resolved = true ->
  exists own,
    fst (instances self pattern parents s) = fst kids ++ own
    /\ List.length own
       = List.length envs * List.length (pys resolved) * List.length combos
    /\ forall i j k e py p,
        nth_error envs i = Some e ->
        nth_error (pys resolved) j = Some py ->
        nth_error combos k = Some p ->
        nth_error own
          ((i * List.length (pys resolved) + j) * List.length combos + k)
        = Some (mkVenvInstance (name resolved) py cmd e p).
Proof.
  intros kids resolved s2 envs combos Hc Hr.
  exists (expand resolved s2). split; [|split].
  - rewrite instances_unfold. subst resolved s2 kids.
    destruct (children_instances _ _ (venvs self) s) as [l s1]. simpl.
    destruct (resolve self parents s1) as [r s2']. reflexivity.
  - apply (@expand_length resolved s2 cmd Hc Hr).
  - intros i j k e py p Hi Hj Hk.
    apply (@expand_nth resolved s2 cmd i j k e py p Hc Hr Hi Hj Hk).
Qed.

(** ** The run loop *)

Section SessionFacts.
Context {host : Host}.

Lemma run_cmd_nonzero (c : Command) (a : option (option string))
    (w : World) :
  failure_code_nonzero (run_cmd c a w).
Proof.
  unfold failure_code_nonzero, run_cmd.
  destruct (match a, c with
            | None, _ => Some c
            | Some a0, Shell cmd env =>
                match str_format cmd a0 with
                | Some cmd' => Some (Shell cmd' env)
                | None => None
                end
            | Some _, Argv _ => None
            end) as [c'|]; simpl; [|exact I].
  destruct (subprocess_run c' w) as [[rc so| | |] w']; simpl; try exact I.
  destruct (rc =? 0)%Z eqn:Hrc; simpl; [exact I|].
  apply Z.eqb_neq. assumption.
Qed.

Lemma reraise_nonzero (A : Type) (msg : Z -> string -> Message) (m : M A)
    (w : World) :
  failure_code_nonzero (m w) -> failure_code_nonzero (reraise msg m w).
Proof.
  unfold failure_code_nonzero, reraise.
  destruct (m w) as [[a|[m0 code so| | |]] w']; simpl; auto.
Qed.

Lemma bind_nonzero (A B : Type) (m : M A) (k : A -> M B) (w : World) :
  failure_code_nonzero (m w) ->
  (forall a w', failure_code_nonzero (k a w')) ->
  failure_code_nonzero (bind m k w).
Proof.
  unfold bind. intros Hm Hk.
  destruct (m w) as [[a|e] w']; [apply Hk | exact Hm].
Qed.

Lemma attempt_nonzero (inst : VenvInstance) (pass_env : bool)
    (cmdargs : option string) (w : World) :
  failure_code_nonzero (attempt inst pass_env cmdargs w).
Proof.
  unfold attempt. apply bind_nonzero.
  - destruct (dict_nonempty (resolved_pkgs inst)); [|exact I].
    apply bind_nonzero; [apply reraise_nonzero, run_cmd_nonzero|].
    intros _ w1. apply bind_nonzero; [|intros; exact I].
    apply reraise_nonzero. unfold run_cmd_venv. apply run_cmd_nonzero.
  - intros _ w1. apply bind_nonzero; [|intros; exact I].
    apply reraise_nonzero. unfold run_cmd_venv. apply run_cmd_nonzero.
Qed.

(** What [run_cmd] makes of an outcome that is not an exit with 0. *)
Lemma run_cmd_bad (c : Command) (w w' : World) (o : Outcome) :
  subprocess_run c w = (o, w') ->
  succeeded o = false ->
  run_cmd c None w
  = (inr match o with
         | Exited rc so => CmdFailure (CommandFailed c rc) rc so
         | Interrupted => KeyboardInterrupt
         | NotFound => FileNotFoundError
         | Crashed => OtherException
         end, w').
Proof.
  intros Hrun Hbad. unfold run_cmd. rewrite Hrun.
  destruct o as [rc so| | |]; simpl in *; try reflexivity.
  rewrite Hbad. reflexivity.
Qed.

Lemma run_cmd_ok (c : Command) (w w' : World) (so : string) :
  subprocess_run c w = (Exited 0 so, w') ->
  run_cmd c None w = (inl so, w').
Proof. intros Hrun. unfold run_cmd. rewrite Hrun. reflexivity. Qed.

Lemma run_cmd_formatted_bad (cmd line : string) (env : option (Dict string))
    (a : option string) (w w' : World) (o : Outcome) :
  str_format cmd a = Some line ->
  subprocess_run (Shell line env) w = (o, w') ->
  succeeded o = false ->
  exists e, run_cmd (Shell cmd env) (Some a) w = (inr e, w') /\ raised_as o e.
Proof.
  intros Hf Hrun Hbad. unfold run_cmd. rewrite Hf, Hrun.
  destruct o as [rc so| | |]; simpl in *.
  - rewrite Hbad. eexists. split; [reflexivity|]. simpl. auto.
  - eexists. split; [reflexivity|]. exact I.
  - eexists. split; [reflexivity|]. exact I.
  - eexists. split; [reflexivity|]. exact I.
Qed.

Lemma reraise_raised_as (A : Type) (msg : Z -> string -> Message) (m : M A)
    (w w' : World) (o : Outcome) (e : Exn) :
  m w = (inr e, w') -> raised_as o e ->
  exists e', reraise msg m w = (inr e', w') /\ raised_as o e'.
Proof.
  intros Hm Hr. unfold reraise. rewrite Hm.
  destruct e as [m0 code so| | |]; eexists; (split; [reflexivity|]);
    destruct o; simpl in *; auto.
Qed.

Lemma run_cmd_bad_raised (c : Command) (w w' : World) (o : Outcome) :
  subprocess_run c w = (o, w') ->
  succeeded o = false ->
  exists e, run_cmd c None w = (inr e, w') /\ raised_as o e.
Proof.
  intros Hrun Hbad. rewrite (run_cmd_bad _ _ Hrun Hbad).
  eexists. split; [reflexivity|]. destruct o; simpl; auto.
Qed.

(** The test stage of [attempt], once the virtualenv is ready. *)
Lemma attempt_prepared (inst : VenvInstance) (pass_env : bool)
    (cmdargs : option string) (w w1 : World) :
  prepared inst w w1 ->
  attempt inst pass_env cmdargs w
  = bind (reraise (fun returncode _ => TestFailed returncode)
            (run_cmd_venv (venv_name_of inst) (inst_command inst)
               (Some (instance_env pass_env inst (resolved_pkgs inst) w1))
               (Some cmdargs)))
         (fun _ => ret tt) w1.
Proof.
  intros [[Hempty ->] | [Hpk [so0 [so1 [w0 [Hclone Hinstall]]]]]];
    unfold attempt.
  - rewrite Hempty. reflexivity.
  - rewrite Hpk. unfold bind at 1. unfold bind at 1.
    unfold reraise at 1. rewrite (run_cmd_ok _ _ Hclone).
    unfold bind at 1. unfold reraise at 1. unfold run_cmd_venv at 1.
    rewrite (run_cmd_ok _ _ Hinstall). reflexivity.
Qed.

(** When a command of the instance does not exit with 0, [attempt]
    raises what that outcome turns into, in the world the command left. *)
Lemma attempt_stops_at (inst : VenvInstance) (pass_env : bool)
    (cmdargs : option string) (w w' : World) (o : Outcome) :
  stops_at inst pass_env cmdargs w o w' ->
  exists e,
    attempt inst pass_env cmdargs w = (inr e, w') /\ raised_as o e.
Proof.
  intros [o0 w0 Hpk Hrun Hbad
         | so0 w0 o0 w1 Hpk Hclone Hrun Hbad
         | w1 line o0 w2 Hprep Hf Hrun Hbad].
  - destruct (run_cmd_bad_raised _ _ Hrun Hbad) as [e [He Hr]].
    destruct (reraise_raised_as
                (fun _ stdout => FailedToCreate (venv_name_of inst) stdout)
                _ _ _ He Hr) as [e' [He' Hr']].
    exists e'. split; [|assumption].
    unfold attempt. rewrite Hpk. unfold bind at 1. unfold bind at 1.
    rewrite He'. reflexivity.
  - destruct (run_cmd_bad_raised _ _ Hrun Hbad) as [e [He Hr]].
    destruct (reraise_raised_as
                (fun _ stdout => FailedToInstall (pkg_str_of inst) stdout)
                _ _ _ He Hr) as [e' [He' Hr']].
    exists e'. split; [|assumption].
    unfold attempt. rewrite Hpk. unfold bind at 1. unfold bind at 1.
    unfold reraise at 1. rewrite (run_cmd_ok _ _ Hclone).
    unfold bind at 1. unfold run_cmd_venv at 1. rewrite He'. reflexivity.
  - destruct (run_cmd_formatted_bad _ _ _ _ Hf Hrun Hbad) as [e [He Hr]].
    destruct (reraise_raised_as
                (fun returncode _ => TestFailed returncode)
                _ _ _ He Hr) as [e' [He' Hr']].
    exists e'. split; [|assumption].
    rewrite (attempt_prepared _ _ Hprep). unfold bind, run_cmd_venv.
    rewrite He'. reflexivity.
Qed.
End SessionFacts.

Section RunLoopFacts.
Context {host : Host}.

Lemma run_instance_failure (inst : VenvInstance) (pass_env : bool)
    (cmdargs : option string) (w w' : World) (msg : Message) (code : Z)
    (stdout : string) :
  attempt inst pass_env cmdargs w = (inr (CmdFailure msg code stdout), w') ->
  code <> 0%Z
  /\ run_instance inst pass_env cmdargs w
     = (result_of inst code, [Failure msg], Next, w').
Proof.
  intros H. split.
  - pose proof (attempt_nonzero inst pass_env cmdargs w) as Hnz.
    unfold failure_code_nonzero in Hnz. rewrite H in Hnz. exact Hnz.
  - unfold run_instance. rewrite H. reflexivity.
Qed.

(** A round that ends the loop leaves a result of code 1, and the only
    status the loop passes to [sys.exit] is 1. *)
Lemma run_instance_stop (inst : VenvInstance) (pass_env : bool)
    (cmdargs : option string) (w w' : World) (r : VenvInstanceResult)
    (lines : list Printed) (control : Control) :
  run_instance inst pass_env cmdargs w = (r, lines, control, w') ->
  control <> Next ->
  code r = 1%Z /\ (control = Break \/ control = SysExit 1).
Proof.
  unfold run_instance.
  destruct (attempt inst pass_env cmdargs w) as [[u|[m c so| | |]] w0];
    intros H Hc; inversion H; subst; simpl; auto; congruence.
Qed.

Lemma run_loop_stop (insts : list VenvInstance) (pythons : list PyVersion)
    (pass_env : bool) (cmdargs : option string) :
  forall acc out w rs o control w',
    run_loop insts pythons pass_env cmdargs acc out w
    = (rs, o, control, w') ->
    control <> Next ->
    (exists front r, rs = front ++ [r] /\ code r = 1%Z)
    /\ (control = Break \/ control = SysExit 1).
Proof.
  induction insts as [|inst rest IH]; intros acc out w rs o control w' H Hc;
    simpl in H.
  - inversion H; subst. congruence.
  - destruct (skipped pythons inst); [eapply IH; eauto|].
    destruct (run_instance inst pass_env cmdargs w)
      as [[[r lines] ctl] w1] eqn:Hr.
    destruct ctl; try (eapply IH; eauto; fail);
      inversion H; subst;
      (destruct (run_instance_stop _ _ _ _ Hr) as [Hcode Hctl];
       [discriminate|]);
      (split; [exists acc, r; auto | assumption]).
Qed.

Lemma run_loop_app (l1 l2 : list VenvInstance) (pythons : list PyVersion)
    (pass_env : bool) (cmdargs : option string) :
  forall acc out w rs o w1,
    run_loop l1 pythons pass_env cmdargs acc out w = (rs, o, Next, w1) ->
    run_loop (l1 ++ l2) pythons pass_env cmdargs acc out w
    = run_loop l2 pythons pass_env cmdargs rs o w1.
Proof.
  induction l1 as [|inst rest IH]; intros acc out w rs o w1 H; simpl in *.
  - inversion H; subst. reflexivity.
  - destruct (skipped pythons inst); [apply IH; assumption|].
    destruct (run_instance inst pass_env cmdargs w)
      as [[[r lines] ctl] w0].
    destruct ctl; [apply IH; assumption | discriminate | discriminate].
Qed.

(** The loop from some results and output is the loop from nothing, put
    after them. *)
Lemma run_loop_acc (insts : list VenvInstance) (pythons : list PyVersion)
    (pass_env : bool) (cmdargs : option string) :
  forall acc out w,
    run_loop insts pythons pass_env cmdargs acc out w
    = let '(rs, o, control, w') :=
        run_loop insts pythons pass_env cmdargs [] [] w in
      (acc ++ rs, out ++ o, control, w').
Proof.
  induction insts as [|inst rest IH]; intros acc out w; simpl.
  - rewrite !app_nil_r. reflexivity.
  - destruct (skipped pythons inst); [apply IH|].
    destruct (run_instance inst pass_env cmdargs w)
      as [[[r lines] ctl] w0].
    destruct ctl; [|reflexivity|reflexivity].
    rewrite IH. rewrite (IH ([] ++ [r]) ([] ++ lines)).
    destruct (run_loop rest pythons pass_env cmdargs [] [] w0)
      as [[[rs o] control] w'].
    rewrite <- !app_assoc. reflexivity.
Qed.

Lemma any_failed_false (rs : list VenvInstanceResult) :
  any_failed rs = false <-> Forall (fun r => code r = 0%Z) rs.
Proof.
  unfold any_failed. induction rs as [|r rs IH]; simpl.
  - split; auto.
  - rewrite orb_false_iff, IH, negb_false_iff, Z.eqb_eq. split.
    + intros [H1 H2]. constructor; assumption.
    + intros H. inversion H; subst. auto.
Qed.

Lemma exit_status_iff (insts : list VenvInstance)
    (pythons : list PyVersion) (pass_env : bool)
    (cmdargs : option string) (w : World) :
  exit_status
    (termination (fst (run_instances insts pythons pass_env cmdargs w)))
  = 0%Z
  <-> Forall (fun r => code r = 0%Z)
        (results (fst (run_instances insts pythons pass_env cmdargs w))).
Proof.
  unfold run_instances.
  destruct (run_loop insts pythons pass_env cmdargs [] [] w)
    as [[[rs o] control] w'] eqn:Hloop.
  assert (Hcommon :
    exit_status (if any_failed rs then SystemExit 1 else Returned) = 0%Z
    <-> Forall (fun r => code r = 0%Z) rs).
  { rewrite <- any_failed_false.
    destruct (any_failed rs); simpl; split; congruence. }
  destruct control; simpl; try exact Hcommon.
  destruct (run_loop_stop _ _ _ _ _ _ _ Hloop) as [[front [r [Hrs Hr]]] Hctl];
    [discriminate|].
  destruct Hctl as [Hctl|Hctl]; [discriminate|]. inversion Hctl; subst.
  split; [discriminate|]. intros Hall.
  apply Forall_app in Hall. destruct Hall as [_ Hall].
  inversion Hall; subst. congruence.
Qed.
End RunLoopFacts.

Section Containment.
Context {host : Host}.

Lemma attempt_passes (inst : VenvInstance) (pass_env : bool)
    (cmdargs : option string) (w w' : World) :
  passes inst pass_env cmdargs w w' ->
  attempt inst pass_env cmdargs w = (inl tt, w').
Proof.
  intros [w1 [line [so [Hprep [Hf Hrun]]]]].
  rewrite (attempt_prepared _ _ Hprep).
  unfold bind, reraise, run_cmd_venv, run_cmd. rewrite Hf, Hrun. reflexivity.
Qed.

Lemma run_instance_passes (inst : VenvInstance) (pass_env : bool)
    (cmdargs : option string) (w w' : World) :
  passes inst pass_env cmdargs w w' ->
  run_instance inst pass_env cmdargs w = (result_of inst 0, [], Next, w').
Proof.
  intros H. unfold run_instance. rewrite (attempt_passes H). reflexivity.
Qed.

Lemma run_instance_fails (inst : VenvInstance) (pass_env : bool)
    (cmdargs : option string) (w w' : World) (rc : Z) (so : string) :
  stops_at inst pass_env cmdargs w (Exited rc so) w' ->
  rc <> 0%Z
  /\ exists msg,
      run_instance inst pass_env cmdargs w
      = (result_of inst rc, [Failure msg], Next, w').
Proof.
  intros H. apply attempt_stops_at in H. destruct H as [e [He Hr]].
  destruct e as [msg code stdout| | |]; simpl in Hr; try contradiction.
  destruct Hr as [-> ->].
  destruct (run_instance_failure _ _ _ _ He) as [Hnz Hrun].
  split; [assumption|]. exists msg. assumption.
Qed.

Lemma run_instance_interrupted (inst : VenvInstance) (pass_env : bool)
    (cmdargs : option string) (w w' : World) :
  stops_at inst pass_env cmdargs w Interrupted w' ->
  run_instance inst pass_env cmdargs w = (result_of inst 1, [], Break, w').
Proof.
  intros H. apply attempt_stops_at in H. destruct H as [e [He Hr]].
  destruct e as [msg code stdout| | |]; simpl in Hr; try contradiction.
  unfold run_instance. rewrite He. reflexivity.
Qed.

(** [run] is the loop once the base virtualenvs are generated. *)
Lemma run_after_base_venvs (venv : Venv) (pattern : Pattern)
    (skip_base_install recreate_venvs pass_env : bool)
    (cmdargs : option string) (pythons : list PyVersion)
    (s s1 : Store) (w w1 : World) :
  generate_base_venvs venv pattern recreate_venvs skip_base_install
    pythons s w = (Returned, s1, w1) ->
  run venv pattern skip_base_install recreate_venvs pass_env cmdargs
    pythons s w
  = run_instances (fst (instances venv pattern [] s1)) pythons pass_env
      cmdargs w1.
Proof.
  intros H. unfold run. rewrite H.
  destruct (instances venv pattern [] s1). reflexivity.
Qed.
(** C1.  (1) When a command of an instance that is not filtered out (the
    copy of the base virtualenv, the installation of the packages or the
    test command) exits with a non-zero code, the loop records the
    instance's result with that code, prints a message, and goes on with
    the next instance.  (2) For three instances of which the first and
    the third pass and a command of the second exits with a non-zero
    code, the run gives exactly three results, of codes 0, the non-zero
    code and 0, and the exit status of the process is not 0.  (3) From
    the loop on, the exit status of the process is 0 exactly when every
    result of the final list has code 0; (4) so it is for the whole of
    [run], once [generate_base_venvs] has returned. *)
Theorem instance_failures_are_contained :
  (forall inst rest pythons pass_env cmdargs acc out w rc so w',
      skipped pythons inst = false ->
      stops_at inst pass_env cmdargs w (Exited rc so) w' ->
      rc <> 0%Z
      /\ exists msg,
          run_loop (inst :: rest) pythons pass_env cmdargs acc out w
          = run_loop rest pythons pass_env cmdargs
              (acc ++ [result_of inst rc]) (out ++ [Failure msg]) w')
  /\ (forall i1 i2 i3 pass_env cmdargs w w1 w2 w3 rc so,
        passes i1 pass_env cmdargs w w1 ->
        stops_at i2 pass_env cmdargs w1 (Exited rc so) w2 ->
        passes i3 pass_env cmdargs w2 w3 ->
        results (fst (run_instances [i1; i2; i3] [] pass_env cmdargs w))
        = [result_of i1 0; result_of i2 rc; result_of i3 0]
        /\ rc <> 0%Z
        /\ exit_status
             (termination
                (fst (run_instances [i1; i2; i3] [] pass_env cmdargs w)))
           = 1%Z)
  /\ (forall insts pythons pass_env cmdargs w,
        exit_status
          (termination
             (fst (run_instances insts pythons pass_env cmdargs w)))
        = 0%Z
        <-> Forall (fun r => code r = 0%Z)
              (results
                 (fst (run_instances insts pythons pass_env cmdargs w))))
  /\ (forall venv pattern skip_base_install recreate_venvs pass_env cmdargs
             pythons s w s1 w1,
        generate_base_venvs venv pattern recreate_venvs skip_base_install
          pythons s w = (Returned, s1, w1) ->
        exit_status
          (termination
             (fst (run venv pattern skip_base_install recreate_venvs pass_env
                     cmdargs pythons s w)))
        = 0%Z
        <-> Forall (fun r => code r = 0%Z)
              (results
                 (fst (run venv pattern skip_base_install recreate_venvs
                         pass_env cmdargs pythons s w)))).
Proof.
  split; [|split; [|split]]; cycle 3.
  { intros venv pattern skip_base_install recreate_venvs pass_env cmdargs
      pythons s w s1 w1 Hbase.
    erewrite run_after_base_venvs by exact Hbase. apply exit_status_iff. }
  - intros inst rest pythons pass_env cmdargs acc out w rc so w' Hsel Hstop.
    destruct (run_instance_fails Hstop) as [Hnz [msg Hrun]].
    split; [assumption|]. exists msg. simpl. rewrite Hsel, Hrun. reflexivity.
  - intros i1 i2 i3 pass_env cmdargs w w1 w2 w3 rc so H1 H2 H3.
    destruct (run_instance_fails H2) as [Hnz [msg Hrun2]].
    unfold run_instances. simpl.
    rewrite (run_instance_passes H1), Hrun2, (run_instance_passes H3).
    simpl. unfold any_failed. simpl.
    apply Z.eqb_neq in Hnz. rewrite Hnz. simpl. rewrite Z.eqb_neq in Hnz. auto.
  - apply exit_status_iff.
Qed.

(** C9.  When the user interrupts a command of an instance (the
    instances before it having run to their end), the result of that
    instance gets code 1, the loop stops there: no later instance is
    run, the world is left as the interrupted command left it; and the
    summary that is printed has one line for every result gathered,
    that of the interrupted instance included.  The process then exits
    with status 1. *)
Theorem interrupt_stops_the_run (before rest : list VenvInstance)
    (inst : VenvInstance) (pythons : list PyVersion) (pass_env : bool)
    (cmdargs : option string) (w w1 w2 : World)
    (rs : list VenvInstanceResult) (out : list Printed) :
  run_loop before pythons pass_env cmdargs [] [] w = (rs, out, Next, w1) ->
  skipped pythons inst = false ->
  stops_at inst pass_env cmdargs w1 Interrupted w2 ->
  run_instances (before ++ inst :: rest) pythons pass_env cmdargs w
  = (mkReport
       (rs ++ [result_of inst 1])
       (out ++ SummaryHeader
            :: map (fun r => SummaryLine (negb (code r =? 0)%Z)
                               (instance r) (pkgstr r))
                   (rs ++ [result_of inst 1]))
       (SystemExit 1),
     w2).
Proof.
  intros Hbefore Hsel Hint. unfold run_instances.
  erewrite run_loop_app by exact Hbefore. simpl.
  rewrite Hsel, (run_instance_interrupted Hint). rewrite app_nil_r.
  unfold summary.
  replace (any_failed (rs ++ [result_of inst 1])) with true; [reflexivity|].
  unfold any_failed. rewrite existsb_app. simpl. rewrite orb_true_r.
  reflexivity.
Qed.

End Containment.

(** ** The names of the virtualenvs *)




Lemma has_char_remove_char (c d : ascii) (s : string) :
  has_char c (remove_char d s) = has_char c s && negb (Ascii.eqb c d).
Proof.
  induction s as [|a s IH]; simpl; [reflexivity|].
  destruct (Ascii.eqb a d) eqn:Had.
  - apply Ascii.eqb_eq in Had. subst a. rewrite IH.
    rewrite (Ascii.eqb_sym d c).
    destruct (Ascii.eqb c d); simpl;
      [rewrite !andb_false_r|rewrite !andb_true_r]; reflexivity.
  - simpl. rewrite IH. destruct (Ascii.eqb a c) eqn:Hac; simpl; [|reflexivity].
    apply Ascii.eqb_eq in Hac. subst a. rewrite Had. reflexivity.
Qed.

Lemma rmchars_step (d : ascii) (chars s : string) :
  rmchars (String d chars) s = rmchars chars (remove_char d s).
Proof. reflexivity. Qed.


Lemma dict_set_fresh (V : Type) (k : string) (v : V) (d : Dict V) :
  ~ In k (dict_keys d) -> dict_set k v d = d ++ [(k, v)].
Proof.
  induction d as [|[k0 v0] d IH]; simpl; intros H; [reflexivity|].
  destruct (String.eqb k k0) eqn:H0.
  - apply String.eqb_eq in H0. subst k0. exfalso. apply H. left. reflexivity.
  - rewrite IH; [reflexivity|]. intros Hin. apply H. right. assumption.
Qed.

(** With distinct package names and every version given, the dictionary
    of the resolved packages is the list of the assignments. *)
Lemma resolved_fold_given (l : list (string * string)) :
  forall acc : Dict string,
    NoDup (dict_keys acc ++ map fst l) ->
    fold_left
      (fun d (nv : string * Version) =>
         match snd nv with
         | Some version => dict_set (fst nv) version d
         | None => d
         end)
      (map (fun nv => (fst nv, Some (snd nv))) l) acc
    = acc ++ l.
Proof.
  induction l as [|[n v] l IH]; intros acc Hnd; simpl.
  - rewrite app_nil_r. reflexivity.
  - rewrite dict_set_fresh.
    + rewrite IH.
      * rewrite <- app_assoc. reflexivity.
      * unfold dict_keys in *. rewrite map_app, <- app_assoc. exact Hnd.
    + apply NoDup_remove_2 in Hnd. intros Hin. apply Hnd.
      apply in_or_app. left. assumption.
Qed.









Lemma resolved_pkgs_given (inst : VenvInstance) (l : list (string * string)) :
  inst_pkgs inst = map (fun nv => (fst nv, Some (snd nv))) l ->
  NoDup (map fst l) ->
  resolved_pkgs inst = l.
Proof.
  intros Hl Hnd. unfold resolved_pkgs. rewrite Hl.
  rewrite resolved_fold_given; [reflexivity | exact Hnd].
Qed.

Lemma map_fst_given (l : list (string * string)) :
  map fst (map (fun nv : string * string => (fst nv, Some (snd nv))) l)
  = map fst l.
Proof. rewrite map_map. reflexivity. Qed.


(** ** [resolve] against the resolution of the specification *)

Lemma resolve_fold_scalars (l : list Venv) :
  forall v s,
    name (fst (fold_left resolve_step l (v, s)))
    = fold_left (fun acc o => if str_truthy o then o else acc)
        (map name l) (name v)
    /\ command (fst (fold_left resolve_step l (v, s)))
       = fold_left (fun acc o => if str_truthy o then o else acc)
           (map command l) (command v)
    /\ pys (fst (fold_left resolve_step l (v, s)))
       = fold_left (fun acc p => if list_truthy p then p else acc)
           (map pys l) (pys v).
Proof.
  induction l as [|parent l IH]; intros v s; cbn [fold_left map].
  - auto.
  - rewrite (surjective_pairing (resolve_step (v, s) parent)).
    destruct (IH (fst (resolve_step (v, s) parent))
                 (snd (resolve_step (v, s) parent))) as [H1 [H2 H3]].
    rewrite H1, H2, H3. unfold resolve_step.
    destruct (str_truthy (name parent)), (list_truthy (pys parent)),
      (str_truthy (command parent)); simpl; auto.
Qed.

Lemma accumulate_update_default (V : Type) (chain : list (Mapping V)) :
  forall D : Dict V,
    fold_left update_default chain D
    = fold_left (fun acc m => dict_update acc (own_mapping m)) chain D.
Proof.
  induction chain as [|m chain IH]; intros D; simpl; [reflexivity|].
  rewrite IH. destruct m; reflexivity.
Qed.

(** The scalar attributes follow the specification in every store; the
    two mappings are the accumulation over the chain on top of what the
    default dictionaries hold when [resolve] starts. *)
Lemma resolve_general (self : Venv) (parents : list Venv) (s : Store) :
  parents <> [] ->
  name (fst (resolve self parents s))
  = last_truthy_str (map name (parents ++ [self]))
  /\ command (fst (resolve self parents s))
     = last_truthy_str (map command (parents ++ [self]))
  /\ pys (fst (resolve self parents s))
     = last_truthy_list (map pys (parents ++ [self]))
  /\ deref_pkgs (snd (resolve self parents s))
                (pkgs (fst (resolve self parents s)))
     = fold_left update_default (map pkgs (parents ++ [self]))
         (default_pkgs s)
  /\ deref_env (snd (resolve self parents s))
               (env (fst (resolve self parents s)))
     = fold_left update_default (map env (parents ++ [self]))
         (default_env s).
Proof.
  intros Hne. rewrite resolve_nonempty by assumption.
  destruct (resolve_fold_scalars (parents ++ [self]) new_Venv s)
    as [H1 [H2 H3]].
  destruct (resolve_fold_refs (parents ++ [self]) new_Venv s)
    as [H4 [H5 _]].
  rewrite H1, H2, H3, H4, H5, resolve_fold_store. simpl. auto.
Qed.

(** On the store of a freshly loaded module, [resolve] computes the
    resolution of the specification. *)
Lemma resolve_on_pristine_store (self : Venv) (parents : list Venv) :
  parents <> [] ->
  name (fst (resolve self parents pristine))
  = last_truthy_str (map name (parents ++ [self]))
  /\ command (fst (resolve self parents pristine))
     = last_truthy_str (map command (parents ++ [self]))
  /\ pys (fst (resolve self parents pristine))
     = last_truthy_list (map pys (parents ++ [self]))
  /\ deref_pkgs (snd (resolve self parents pristine))
                (pkgs (fst (resolve self parents pristine)))
     = accumulate (map pkgs (parents ++ [self]))
  /\ deref_env (snd (resolve self parents pristine))
               (env (fst (resolve self parents pristine)))
     = accumulate (map env (parents ++ [self])).
Proof.
  intros Hne.
  destruct (@resolve_general self parents pristine Hne)
    as [H1 [H2 [H3 [H4 H5]]]].
  rewrite H1, H2, H3, H4, H5. unfold accumulate.
  rewrite !accumulate_update_default. auto.
Qed.

Lemma resolve_no_parents (self : Venv) (s : Store) :
  resolve self [] s = (self, s).
Proof. reflexivity. Qed.

(** A dictionary of a node's own is out of the reach of [resolve]: only
    the default dictionaries change. *)
Lemma resolve_leaves_own_mappings (self n : Venv) (parents : list Venv)
    (s : Store) :
  (forall d, pkgs n = Own d ->
             deref_pkgs (snd (resolve self parents s)) (pkgs n) = d)
  /\ (forall d, env n = Own d ->
                deref_env (snd (resolve self parents s)) (env n) = d).
Proof. split; intros d H; rewrite H; reflexivity. Qed.

(** C2 (the code at the failing input).  In the tree [two_children],
    resolving child [b] after child [a] gives [b] the package [p] of [a]
    on top of its own [q], where the accumulation over the chain of [b]
    has [q] alone: the dictionary the resolved node accumulates into is
    the default dictionary of the class, which the earlier call filled. *)
Theorem resolve_keeps_earlier_packages :
  let s1 := snd (resolve child_a [two_children] pristine) in
  let r := resolve child_b [two_children] s1 in
  deref_pkgs (snd r) (pkgs (fst r)) = [("p", [Some "1"]); ("q", [Some "2"])]
  /\ accumulate (map pkgs [two_children; child_b]) = [("q", [Some "2"])]
  /\ map inst_pkgs (fst (instances two_children match_all [] pristine))
     = [[("p", Some "1")]; [("p", Some "1"); ("q", Some "2")]].
Proof. repeat split. Qed.

(** C3 (the code at the failing input).  In the tree [two_children], the
    root is built without packages.  Before [a.resolve([root])] its
    packages are empty; after the call they hold the package [p] of [a]:
    the mapping of the resolved node is the very dictionary that the root
    (and every node built without packages) holds. *)
Theorem resolve_writes_shared_default :
  let r := resolve child_a [two_children] pristine in
  deref_pkgs pristine (pkgs two_children) = []
  /\ deref_pkgs (snd r) (pkgs two_children) = [("p", [Some "1"])]
  /\ pkgs (fst r) = pkgs two_children.
Proof. repeat split. Qed.

(** ** The sample configurations *)

(** The docstring of [expand_specs]. *)
Example expand_specs_docstring :
  expand_specs [("X", ["X0"; "X1"]); ("Y", ["Y0"; "Y1"])]
  = [[("X", "X0"); ("Y", "Y0")]; [("X", "X0"); ("Y", "Y1")];
     [("X", "X1"); ("Y", "Y0")]; [("X", "X1"); ("Y", "Y1")]].
Proof. reflexivity. Qed.

(** One package axis of two versions, one interpreter, no environment
    axis: two instances, of summaries ['pkgA'] and ['pkgA>=1.0']. *)
Example two_versions_instances :
  map (fun i => (inst_py i, pkg_str_of i))
      (fst (instances two_versions match_all [] pristine))
  = [("3.8", "'pkgA'"); ("3.8", "'pkgA>=1.0'")].
Proof. reflexivity. Qed.

(** The root is not compared with the pattern: named [x] and enumerated
    with a pattern that matches [y] only, it still yields its instance.
    Nor is a child whose name is the empty string, which counts as no
    name. *)
Lemma named_root_is_not_pruned :
  (subtree_at named_root [] [] = Some ([], named_root)
   /\ name named_root = Some "x"
   /\ only_y "x" = false
   /\ fst (instances_from named_root only_y [] pristine)
      = [([], mkVenvInstance (Some "x") "3.8" "c" [] [])]
   /\ ~ Forall (fun tx => is_below [] (fst tx) = false)
          (fst (instances_from named_root only_y [] pristine)))
  /\ (subtree_at above_empty_name [] [0]
      = Some ([above_empty_name], empty_name)
      /\ name empty_name = Some EmptyString
      /\ only_y EmptyString = false
      /\ fst (instances_from above_empty_name only_y [] pristine)
         = [([0], mkVenvInstance None "3.8" "c" [] [])]).
Proof.
  repeat split. intros H. inversion H as [|tx l Hx _]. discriminate.
Qed.

(** Below the root, the node [x] does not match and is passed over with
    the node [y] under it, which would match. *)
Lemma pruned_witness :
  only_y "y" = true
  /\ Forall (fun tx => is_below [0] (fst tx) = false)
       (fst (instances_from above_x only_y [] pristine)).
Proof.
  split; [reflexivity|].
  apply (@mismatched_child_is_pruned above_x only_y pristine [0]
           [above_x] node_x "x").
  - discriminate.
  - reflexivity.
  - reflexivity.
  - discriminate.
  - reflexivity.
Defined.


(** The eight instances of [matrix]; the sixth is the one of the second
    environment combination, the first interpreter and the second package
    combination. *)
Lemma triples_witness :
  exists own,
    fst (instances matrix match_all [] pristine) = own
    /\ List.length own = 8
    /\ nth_error own 5
       = Some (mkVenvInstance (Some "m") "3.7" "c"
                 [("E", Literal (Some "b"))] [("p", Some "2")]).
Proof.
  destruct (@runnable_node_yields_triples matrix match_all [] pristine "c"
              eq_refl eq_refl) as [own [Hall [Hlen Hnth]]].
  exists own. split; [exact Hall|]. split; [exact Hlen|].
  apply (Hnth 1 0 1); reflexivity.
Defined.

(** In [runnable_parent] the instance of the child comes first. *)
Lemma children_first_witness :
  fst (instances_from runnable_parent match_all [] pristine)
  = [([0], mkVenvInstance (Some "k") "3.8" "d" [] []);
     ([], mkVenvInstance (Some "r") "3.8" "c" [] [])]
  /\ 0 < 1.
Proof.
  split; [reflexivity|].
  apply (proj1 (@children_yield_before_parent runnable_parent match_all
                  pristine)
           0 1 [] 0 []
           (mkVenvInstance (Some "k") "3.8" "d" [] [])
           (mkVenvInstance (Some "r") "3.8" "c" [] []));
    reflexivity.
Defined.



(** The runs below are runs on the scripted host. *)
#[local] Existing Instance scripted.

Lemma plain_passes (n so : string) (w : World) :
  passes (plain n) false None (Exited 0 so :: w) w.
Proof.
  exists (Exited 0 so :: w), (get_venv_command ".riot/.venv_py38" "c"), so.
  split; [left; split; reflexivity|]. split; reflexivity.
Defined.

(** Three instances, the test command of the second exits with 2. *)
Lemma containment_witness :
  results (fst (run_instances [plain "one"; plain "two"; plain "three"] []
                  false None
                  [ok; exit2; ok]))
  = [result_of (plain "one") 0; result_of (plain "two") 2;
     result_of (plain "three") 0]
  /\ 2%Z <> 0%Z
  /\ exit_status
       (termination
          (fst (run_instances [plain "one"; plain "two"; plain "three"] []
                  false None
                  [ok; exit2; ok])))
     = 1%Z.
Proof.
  apply (proj1 (proj2 (@instance_failures_are_contained scripted))
           (plain "one") (plain "two") (plain "three") false None
           [ok; exit2; ok]
           [exit2; ok] [ok] [] 2%Z EmptyString).
  - apply plain_passes.
  - apply at_test with (w1 := [exit2; ok])
                       (line := get_venv_command ".riot/.venv_py38" "c").
    + left. split; reflexivity.
    + reflexivity.
    + reflexivity.
    + reflexivity.
  - apply plain_passes.
Defined.

(** Three instances, the user interrupts the test command of the
    second: two results, both in the summary, and the third never run. *)
Lemma interrupt_witness :
  run_instances [plain "one"; plain "two"; plain "three"] [] false None
    [ok; Interrupted; ok]
  = (mkReport
       [result_of (plain "one") 0; result_of (plain "two") 1]
       [SummaryHeader;
        SummaryLine false (plain "one") EmptyString;
        SummaryLine true (plain "two") EmptyString]
       (SystemExit 1),
     [ok]).
Proof.
  apply (@interrupt_stops_the_run scripted [plain "one"] [plain "three"]
           (plain "two") [] false None
           [ok; Interrupted; ok]
           [Interrupted; ok] [ok]
           [result_of (plain "one") 0] []).
  - reflexivity.
  - reflexivity.
  - apply at_test with (w1 := [Interrupted; ok])
                       (line := get_venv_command ".riot/.venv_py38" "c").
    + left. split; reflexivity.
    + reflexivity.
    + reflexivity.
    + reflexivity.
Defined.

(* ================================================================== *)
(** * Further properties of the code *)

(** ** [rmchars] *)

(** [rmchars(chars, s)] keeps exactly the characters of [s] that are not
    in [chars]: a character occurs in the result if and only if it occurs
    in [s] and not in [chars]. *)
Theorem rmchars_occurrences (chars s : string) (c : ascii) :
  has_char c (rmchars chars s) = has_char c s && negb (has_char c chars).
Proof.
  revert s. induction chars as [|d chars IH]; intros s.
  - unfold rmchars. simpl. rewrite andb_true_r. reflexivity.
  - rewrite rmchars_step, IH, has_char_remove_char. simpl.
    rewrite (Ascii.eqb_sym d c).
    destruct (has_char c s), (Ascii.eqb c d), (has_char c chars); reflexivity.
Qed.

(** ** [expand_specs]: order, completeness, repetitions *)

Section ProductOrder.
Variable A : Type.

Lemma flat_map_singleton_app (l : list (list A)) :
  flat_map (fun a => [a ++ []]) l = l.
Proof.
  induction l as [|a l IH]; simpl; [reflexivity|].
  rewrite app_nil_r, IH. reflexivity.
Qed.

Lemma flat_map_extend (P : list (list A)) (a : list A) (pool : list A) :
  flat_map (fun b => map (fun c => b ++ c) P) (map (fun y => a ++ [y]) pool)
  = map (fun c => a ++ c)
      (flat_map (fun b => map (fun c => b ++ c) P) (map (fun y => [y]) pool)).
Proof.
  induction pool as [|y pool IH]; simpl; [reflexivity|].
  rewrite map_app, IH, map_map. f_equal.
  apply map_ext. intros c. rewrite <- app_assoc. reflexivity.
Qed.

(** The product from some prefixes is the product from the empty prefix,
    put after each of them. *)
Lemma product_from_prefixes (pools : list (list A)) :
  forall acc,
    fold_left (@product_step A) pools acc
    = flat_map (fun a => map (fun c => a ++ c) (product pools)) acc.
Proof.
  unfold product.
  induction pools as [|pool pools IH]; intros acc; cbn [fold_left].
  - simpl. symmetry. apply flat_map_singleton_app.
  - rewrite IH. rewrite (IH (product_step [[]] pool)).
    unfold product_step at 2. simpl. rewrite app_nil_r.
    unfold product_step.
    induction acc as [|a acc IHacc]; simpl; [reflexivity|].
    rewrite flat_map_app, IHacc. f_equal.
    apply flat_map_extend.
Qed.

Lemma product_cons (pool : list A) (pools : list (list A)) :
  product (pool :: pools)
  = flat_map (fun y => map (cons y) (product pools)) pool.
Proof.
  unfold product at 1. cbn [fold_left]. rewrite product_from_prefixes.
  unfold product_step. simpl. rewrite app_nil_r.
  induction pool as [|y pool IH]; simpl; [reflexivity|].
  rewrite IH. reflexivity.
Qed.
End ProductOrder.

Lemma NoDup_map_cons (A : Type) (x : A) (l : list (list A)) :
  NoDup l -> NoDup (map (cons x) l).
Proof.
  induction 1 as [|c l Hc _ IH]; simpl; constructor; [|assumption].
  intros Hin. apply in_map_iff in Hin. destruct Hin as [c' [Heq Hin]].
  inversion Heq; subst. contradiction.
Qed.

Lemma expand_specs_cons (V : Type) (k : string) (vals : list V)
    (rest : Dict (list V)) :
  expand_specs ((k, vals) :: rest)
  = flat_map (fun v => map (cons (k, v)) (expand_specs rest)) vals.
Proof.
  unfold expand_specs, dict_items. cbn [map fst snd].
  rewrite product_cons.
  induction vals as [|v vals IH]; simpl; [reflexivity|].
  rewrite IH. reflexivity.
Qed.

Lemma expand_specs_complete (V : Type) (specs : Dict (list V))
    (combo : list (string * V)) :
  picks_from specs combo -> In combo (expand_specs specs).
Proof.
  unfold picks_from.
  induction 1 as [|[k vals] [k' v] specs combo [Hk Hv] _ IH].
  - left. reflexivity.
  - simpl in Hk, Hv. subst k'. rewrite expand_specs_cons.
    apply in_flat_map. exists v. split; [assumption|].
    apply in_map. assumption.
Qed.

(** C7 says how many combinations there are; this says in which order
    they come.  The combinations of a mapping are, for each candidate of
    its first axis in turn, that candidate followed by each combination of
    the remaining axes: the first axis varies slowest, the last fastest. *)
Theorem expand_specs_first_axis_slowest (V : Type) (k : string)
    (vals : list V) (rest : Dict (list V)) :
  expand_specs ((k, vals) :: rest)
  = flat_map (fun v => map (cons (k, v)) (expand_specs rest)) vals.
Proof. apply expand_specs_cons. Qed.

(** The combinations are exactly the ways to pick one candidate for each
    axis, the axes in the order of the mapping: none is missing and none
    is foreign. *)
Theorem expand_specs_exactly_the_picks (V : Type) (specs : Dict (list V))
    (combo : list (string * V)) :
  In combo (expand_specs specs) <-> picks_from specs combo.
Proof.
  split; [apply expand_specs_picks | apply expand_specs_complete].
Qed.

Lemma expand_specs_NoDup (V : Type) (specs : Dict (list V)) :
  Forall (fun item => NoDup (snd item)) specs -> NoDup (expand_specs specs).
Proof.
  induction 1 as [|[k vals] specs Hvals _ IH].
  - repeat constructor. simpl. tauto.
  - rewrite expand_specs_cons. simpl in Hvals.
    induction Hvals as [|v vals Hv _ IHv]; simpl; [constructor|].
    apply NoDup_app.
    + apply NoDup_map_cons. assumption.
    + assumption.
    + intros c Hc Hc'. apply in_map_iff in Hc. destruct Hc as [c0 [Hc0 _]].
      subst c. apply in_flat_map in Hc'. destruct Hc' as [v' [Hv' Hin]].
      apply in_map_iff in Hin. destruct Hin as [c1 [Heq _]].
      inversion Heq; subst. contradiction.
Qed.

(** When no axis lists a candidate twice, no combination comes twice. *)
Theorem expand_specs_no_repetition (V : Type) (specs : Dict (list V)) :
  Forall (fun item => NoDup (snd item)) specs -> NoDup (expand_specs specs).
Proof. apply expand_specs_NoDup. Qed.

Lemma expand_specs_no_repetition_witness :
  NoDup (expand_specs [("X", ["X0"; "X1"]); ("Y", ["Y0"; "Y1"])]).
Proof.
  apply expand_specs_no_repetition.
  repeat constructor; simpl; intuition discriminate.
Defined.

Lemma axes_size_empty_axis (V : Type) (specs : Dict (list V)) (k : string) :
  In (k, []) specs -> axes_size specs = 0.
Proof.
  unfold axes_size. induction specs as [|item specs IH]; simpl; intros H.
  - contradiction.
  - destruct H as [H|H].
    + subst item. reflexivity.
    + rewrite IH by assumption. lia.
Qed.

Lemma expand_specs_empty_axis (V : Type) (specs : Dict (list V))
    (k : string) :
  In (k, []) specs -> expand_specs specs = [].
Proof.
  intros H. apply length_zero_iff_nil.
  rewrite expand_specs_length. eapply axes_size_empty_axis. eassumption.
Qed.

Lemma flat_map_nil (A B : Type) (f : A -> list B) (l : list A) :
  (forall a, f a = []) -> flat_map f l = [].
Proof.
  intros H. induction l as [|a l IH]; simpl; [reflexivity|].
  rewrite H, IH. reflexivity.
Qed.

(** A package or an environment variable with an empty list of candidates
    silences the node: however runnable its resolved form, it yields no
    instance of its own. *)
Theorem empty_axis_yields_nothing (resolved : Venv) (s : Store) (k : string) :
  In (k, []) (deref_env s (env resolved))
  \/ In (k, []) (deref_pkgs s (pkgs resolved)) ->
  expand resolved s = [].
Proof.
  intros H. unfold expand.
  destruct (command resolved) as [cmd|]; [|reflexivity].
  destruct (runnable resolved); [|reflexivity].
  destruct H as [H|H].
  - rewrite (expand_specs_empty_axis _ _ H). reflexivity.
  - rewrite (expand_specs_empty_axis _ _ H). simpl.
    apply flat_map_nil. intros e. apply flat_map_nil. reflexivity.
Qed.

Lemma empty_axis_witness :
  runnable empty_axis = true
  /\ fst (instances empty_axis match_all [] pristine) = [].
Proof.
  split; [reflexivity|].
  apply (@empty_axis_yields_nothing empty_axis pristine "q").
  right. simpl. tauto.
Defined.

(** ** Where the instances come from *)

Lemma expand_In (resolved : Venv) (s : Store) (x : VenvInstance) :
  In x (expand resolved s) ->
  runnable resolved = true
  /\ command resolved = Some (inst_command x)
  /\ inst_name x = name resolved
  /\ In (inst_py x) (pys resolved)
  /\ In (inst_env x) (expand_specs (deref_env s (env resolved)))
  /\ In (inst_pkgs x) (expand_specs (deref_pkgs s (pkgs resolved))).
Proof.
  unfold expand. destruct (command resolved) as [cmd|]; [|contradiction].
  destruct (runnable resolved); [|contradiction].
  intros H. apply in_flat_map in H. destruct H as [e [He H]].
  apply in_flat_map in H. destruct H as [py [Hpy H]].
  apply in_map_iff in H. destruct H as [p [Hx Hp]]. subst x. simpl.
  repeat split; assumption.
Qed.

Lemma instances_from_origin (pattern : Pattern) (v : Venv) :
  forall ps s t x,
    In (t, x) (fst (instances_from v pattern ps s)) ->
    reachable pattern v t = true
    /\ exists ps' n s1,
        subtree_at v ps t = Some (ps', n)
        /\ In x (expand (fst (resolve n ps' s1)) (snd (resolve n ps' s1))).
Proof.
  induction v as [nm c p k e vs IH] using Venv_ind. intros ps s t x Hin.
  apply instances_from_In in Hin.
  destruct Hin as [[j [child [s' [t' [Hn [Hc [Ht Hin]]]]]]] | [Ht [s1 Hin]]];
    subst t.
  - simpl in Hn. rewrite Forall_forall in IH.
    destruct (IH child (nth_error_In _ _ Hn) _ _ _ _ Hin)
      as [Hreach [ps' [n [s1 [Hsub Hx]]]]].
    split.
    + simpl. rewrite Hn, Hc, Hreach. reflexivity.
    + exists ps', n, s1. simpl. rewrite Hn. auto.
  - split; [reflexivity|]. eexists ps, _, s1. split; [reflexivity|]. exact Hin.
Qed.

Lemma instances_In_tagged (pattern : Pattern) (self : Venv)
    (parents : list Venv) (s : Store) (x : VenvInstance) :
  In x (fst (instances self pattern parents s))
  <-> exists t, In (t, x) (fst (instances_from self pattern parents s)).
Proof.
  rewrite instances_from_erase. simpl. rewrite in_map_iff. split.
  - intros [[t x'] [Hx Hin]]. simpl in Hx. subst x'. exists t. assumption.
  - intros [t Hin]. exists (t, x). auto.
Qed.


(** Every instance of the enumeration has a command that is not empty and
    an interpreter: nothing that could not be run is ever yielded. *)
Theorem instances_are_runnable (self : Venv) (pattern : Pattern)
    (parents : list Venv) (s : Store) :
  Forall (fun x => inst_command x <> EmptyString)
         (fst (instances self pattern parents s)).
Proof.
  apply Forall_forall. intros x Hin.
  apply instances_In_tagged in Hin. destruct Hin as [t Hin].
  apply instances_from_origin in Hin.
  destruct Hin as [_ [ps [n [s1 [_ Hx]]]]].
  apply expand_In in Hx. destruct Hx as [Hrun [Hcmd _]].
  unfold runnable in Hrun. rewrite Hcmd in Hrun. simpl in Hrun.
  apply andb_true_iff in Hrun. destruct Hrun as [Hne _].
  apply negb_true_iff in Hne. apply String.eqb_neq in Hne. assumption.
Qed.

(** The chain of a place that is reached: the root, then nodes that the
    pattern does not refuse. *)
Lemma reachable_chain (pattern : Pattern) (t : Path) :
  forall v ps ps' n,
    reachable pattern v t = true ->
    subtree_at v ps t = Some (ps', n) ->
    exists mid,
      ps' ++ [n] = ps ++ v :: mid
      /\ Forall (fun m => mismatch pattern m = false) mid.
Proof.
  induction t as [|i t IH]; intros v ps ps' n Hreach Hsub; simpl in *.
  - inversion Hsub; subst. exists []. split; [reflexivity | constructor].
  - destruct (nth_error (venvs v) i) as [child|]; [|discriminate].
    apply andb_true_iff in Hreach. destruct Hreach as [Hm Hreach].
    apply negb_true_iff in Hm.
    destruct (IH _ _ _ _ Hreach Hsub) as [mid [Hchain Hmid]].
    exists (child :: mid). split.
    + rewrite Hchain, <- app_assoc. reflexivity.
    + constructor; assumption.
Qed.

Lemma last_truthy_selected (pattern : Pattern) (root : Venv)
    (l : list Venv) :
  Forall (fun m => str_truthy (name m) = true ->
                   selected_name pattern root (name m)) l ->
  forall acc,
    selected_name pattern root acc ->
    selected_name pattern root
      (fold_left (fun acc o => if str_truthy o then o else acc)
         (map name l) acc).
Proof.
  induction 1 as [|m l Hm _ IH]; intros acc Hacc; simpl; [assumption|].
  apply IH. destruct (str_truthy (name m)); auto.
Qed.

Lemma not_mismatch_selected (pattern : Pattern) (root m : Venv) :
  mismatch pattern m = false ->
  str_truthy (name m) = true ->
  selected_name pattern root (name m).
Proof.
  unfold mismatch, str_truthy. destruct (name m) as [nm|]; [|discriminate].
  intros Hm Ht. rewrite Ht in Hm. simpl in Hm.
  apply negb_false_iff in Hm. right. right. exists nm. auto.
Qed.

(** The name of every instance of the enumeration from the root is a name
    the pattern matches, or the name of the root, or no name at all: a
    pattern selects by name everywhere but at the root. *)
Theorem instance_names_are_selected (root : Venv) (pattern : Pattern)
    (s : Store) :
  Forall (fun x => selected_name pattern root (inst_name x))
         (fst (instances root pattern [] s)).
Proof.
  apply Forall_forall. intros x Hin.
  apply instances_In_tagged in Hin. destruct Hin as [t Hin].
  apply instances_from_origin in Hin.
  destruct Hin as [Hreach [ps [n [s1 [Hsub Hx]]]]].
  apply expand_In in Hx. destruct Hx as [_ [_ [Hname _]]]. rewrite Hname.
  destruct (@reachable_chain pattern t root [] ps n Hreach Hsub)
    as [mid [Hchain Hmid]].
  destruct ps as [|p0 ps].
  - simpl in Hchain. inversion Hchain; subst. right. left. reflexivity.
  - destruct (@resolve_general n (p0 :: ps) s1) as [H1 _]; [discriminate|].
    rewrite H1, Hchain. simpl app. unfold last_truthy_str.
    apply last_truthy_selected; [|left; reflexivity].
    constructor.
    + intros _. right. left. reflexivity.
    + revert Hmid. apply Forall_impl. intros m Hm.
      apply not_mismatch_selected. assumption.
Qed.

Lemma children_from_complete (pattern : Pattern)
    (enter : Venv -> Store -> list (Path * VenvInstance) * Store)
    (vs : list Venv) :
  forall i s j child,
    nth_error vs j = Some child ->
    mismatch pattern child = false ->
    forall t x,
      In (t, x)
         (fst (enter child
                 (snd (children_from pattern enter i (firstn j vs) s)))) ->
      In ((i + j) :: t, x) (fst (children_from pattern enter i vs s)).
Proof.
  induction vs as [|v vs IH]; intros i s j child Hn Hm.
  - destruct j; discriminate.
  - destruct j as [|j]; simpl in Hn.
    + inversion Hn; subst v. intros t x Hin. simpl in *. rewrite Hm.
      destruct (enter child s) as [l s1].
      destruct (children_from pattern enter (S i) vs s1) as [l' s2].
      simpl in *. apply in_or_app. left.
      rewrite Nat.add_0_r. apply (in_map (via i) _ _ Hin).
    + intros t x Hin. simpl in *. destruct (mismatch pattern v).
      * replace (i + S j) with (S i + j) by lia.
        apply (IH (S i) s j child Hn Hm). exact Hin.
      * destruct (enter v s) as [l s1].
        pose proof (IH (S i) s1 j child Hn Hm t x) as H.
        destruct (children_from pattern enter (S i) (firstn j vs) s1)
          as [k1 s3].
        destruct (children_from pattern enter (S i) vs s1) as [l' s2].
        simpl in *. apply in_or_app. right.
        replace (i + S j) with (S i + j) by lia. auto.
Qed.

(** The tagged loop and the loop of the source leave the same store. *)
Lemma children_from_store (pattern : Pattern) (ps vs : list Venv)
    (i : nat) (s : Store) :
  snd (children_from pattern
         (fun venv s' => instances_from venv pattern ps s') i vs s)
  = snd (children_instances pattern
           (fun venv s' => instances venv pattern ps s') vs s).
Proof.
  rewrite (@children_from_erase pattern
             (fun venv s' => instances venv pattern ps s')
             (fun venv s' => instances_from venv pattern ps s') vs)
    with (i := i); [reflexivity|].
  apply Forall_forall. intros v _ s'. apply instances_from_erase.
Qed.

Lemma instances_from_complete (pattern : Pattern) (t : Path) :
  forall v ps s ps' n,
    reachable pattern v t = true ->
    subtree_at v ps t = Some (ps', n) ->
    forall x,
      In x (expand (fst (resolve n ps' (store_at pattern v ps t s)))
                   (snd (resolve n ps' (store_at pattern v ps t s)))) ->
      In (t, x) (fst (instances_from v pattern ps s)).
Proof.
  induction t as [|i t IH]; intros v ps s ps' n Hreach Hsub x Hx;
    simpl in *.
  - inversion Hsub; subst. rewrite instances_from_unfold.
    rewrite <- (children_from_store pattern (ps' ++ [n]) (venvs n) 0 s) in Hx.
    destruct (children_from _ _ 0 (venvs n) s) as [l s1].
    destruct (resolve n ps' s1) as [resolved s2] eqn:Hr. simpl in *.
    rewrite Hr in Hx. simpl in Hx.
    apply in_or_app. right. apply (in_map here _ _ Hx).
  - destruct (nth_error (venvs v) i) as [child|] eqn:Hn; [|discriminate].
    apply andb_true_iff in Hreach. destruct Hreach as [Hm Hreach].
    apply negb_true_iff in Hm.
    pose proof (IH child (ps ++ [v]) _ ps' n Hreach Hsub x Hx) as Hchild.
    rewrite <- (children_from_store pattern (ps ++ [v])
                  (firstn i (venvs v)) 0 s) in Hchild.
    pose proof (@children_from_complete pattern
                  (fun venv s' => instances_from venv pattern (ps ++ [v]) s')
                  (venvs v) 0 s i child Hn Hm t x Hchild) as Hkids.
    rewrite instances_from_unfold. simpl in Hkids.
    destruct (children_from _ _ 0 (venvs v) s) as [l s2].
    destruct (resolve v ps s2) as [resolved s3]. simpl in *.
    apply in_or_app. left. assumption.
Qed.

(** No node is forgotten: for every place of the tree that is reached from
    the root through nodes whose names the pattern does not refuse, all
    the instances its node expands to, in the store the walk has built
    when it resolves the node ([store_at]), are in the enumeration. *)
Theorem reached_nodes_are_expanded (root : Venv) (pattern : Pattern)
    (s : Store) (t : Path) (ps : list Venv) (n : Venv) :
  reachable pattern root t = true ->
  subtree_at root [] t = Some (ps, n) ->
  Forall (fun x => In x (fst (instances root pattern [] s)))
         (expand (fst (resolve n ps (store_at pattern root [] t s)))
                 (snd (resolve n ps (store_at pattern root [] t s)))).
Proof.
  intros Hreach Hsub. apply Forall_forall. intros x Hx.
  apply instances_In_tagged. exists t.
  apply (@instances_from_complete pattern t root [] s ps n Hreach Hsub x Hx).
Qed.

(** In [two_children], the walk resolves child [b] in the store that
    child [a] has left: its one instance, with the packages [p] and [q],
    is in the enumeration. *)
Lemma reached_nodes_witness :
  store_at match_all two_children [] [1] pristine
  = mkStore [("p", [Some "1"])] []
  /\ Forall (fun x => In x (fst (instances two_children match_all [] pristine)))
            [instance_b].
Proof.
  split; [reflexivity|].
  apply (@reached_nodes_are_expanded two_children match_all pristine [1]
           [two_children] child_b); reflexivity.
Defined.

(** ** The base virtualenvs *)

Section BaseVenvs.
Context {host : Host}.


(** The virtualenv program is missing for the first version: the loop
    goes on to the second. *)
Example missing_virtualenv_goes_on :
  @base_venvs_loop scripted ["3.7"; "3.8"] true true [NotFound; ok]
  = (Returned, []).
Proof. reflexivity. Qed.

(** When the base virtualenv of every version is already there and is not
    to be recreated, and the development install is skipped, the loop
    runs no command at all: it returns and leaves the world as it was. *)
Theorem base_venvs_reused (pys : list PyVersion) (w : World) :
  Forall (fun py => os_path_isdir (get_base_venv_path py) w = true) pys ->
  base_venvs_loop pys false true w = (Returned, w).
Proof.
  induction 1 as [|py pys Hpy _ IH]; simpl; [reflexivity|].
  unfold create_base_venv. rewrite Hpy. simpl. exact IH.
Qed.

End BaseVenvs.

Lemma base_venvs_reused_witness :
  @base_venvs_loop provisioned ["3.7"; "3.8"] false true [exit2]
  = (Returned, [exit2]).
Proof.
  apply (@base_venvs_reused provisioned ["3.7"; "3.8"] [exit2]).
  repeat constructor.
Defined.

(** ** More on the run loop *)

Section RunLoopMore.
Context {host : Host}.

Lemma run_instance_result (inst : VenvInstance) (pass_env : bool)
    (cmdargs : option string) (w : World) :
  exists c,
    fst (fst (fst (run_instance inst pass_env cmdargs w))) = result_of inst c.
Proof.
  unfold run_instance.
  destruct (attempt inst pass_env cmdargs w) as [[u|[m c so| | |]] w'];
    simpl; eexists; reflexivity.
Qed.

Lemma run_loop_results (insts : list VenvInstance) (pythons : list PyVersion)
    (pass_env : bool) (cmdargs : option string) :
  forall acc out w,
    exists new rest,
      fst (fst (fst (run_loop insts pythons pass_env cmdargs acc out w)))
      = acc ++ new
      /\ selected pythons insts = map instance new ++ rest
      /\ (snd (fst (run_loop insts pythons pass_env cmdargs acc out w)) = Next
          -> rest = [])
      /\ Forall (fun r => r = result_of (instance r) (code r)) new.
Proof.
  unfold selected.
  induction insts as [|inst insts IH]; intros acc out w; simpl.
  - exists [], []. rewrite app_nil_r. auto.
  - destruct (skipped pythons inst); simpl; [apply IH|].
    destruct (run_instance_result inst pass_env cmdargs w) as [c Hc].
    destruct (run_instance inst pass_env cmdargs w)
      as [[[r lines] ctl] w1]. simpl in Hc. subst r.
    destruct ctl.
    + destruct (IH (acc ++ [result_of inst c]) (out ++ lines) w1)
        as [new [rest [H1 [H2 [H3 H4]]]]].
      exists (result_of inst c :: new), rest. rewrite H1, H2, <- app_assoc.
      simpl. repeat split; auto.
    + exists [result_of inst c],
        (filter (fun i => negb (skipped pythons i)) insts).
      simpl. repeat split; auto. discriminate.
    + exists [result_of inst c],
        (filter (fun i => negb (skipped pythons i)) insts).
      simpl. repeat split; auto. discriminate.
Qed.

(** The results of a run are, in order, the results of the instances that
    pass the version filter, one each, up to where the loop stopped: all
    of them when the loop runs to its end.  Each result carries the
    virtualenv name and the package summary of its instance. *)
Theorem results_follow_selected (insts : list VenvInstance)
    (pythons : list PyVersion) (pass_env : bool) (cmdargs : option string)
    (w : World) :
  exists rest,
    selected pythons insts
    = map instance
        (results (fst (run_instances insts pythons pass_env cmdargs w)))
      ++ rest
    /\ (termination (fst (run_instances insts pythons pass_env cmdargs w))
        = Returned -> rest = [])
    /\ Forall (fun r => r = result_of (instance r) (code r))
         (results (fst (run_instances insts pythons pass_env cmdargs w))).
Proof.
  destruct (run_loop_results insts pythons pass_env cmdargs [] [] w)
    as [new [rest [H1 [H2 [H3 H4]]]]].
  unfold run_instances.
  destruct (run_loop insts pythons pass_env cmdargs [] [] w)
    as [[[rs out] ctl] w'] eqn:Hloop.
  simpl in H1, H3. subst rs.
  exists rest. destruct ctl; simpl; repeat split; auto; try discriminate.
  intros Hret. exfalso.
  destruct (run_loop_stop _ _ _ _ _ _ _ Hloop)
    as [[front [r [Hrs Hr]]] _]; [discriminate|].
  assert (Hany : any_failed new = true).
  { rewrite Hrs. unfold any_failed. rewrite existsb_app. simpl.
    rewrite Hr. simpl. apply orb_true_r. }
  rewrite Hany in Hret. discriminate.
Qed.

Lemma run_instance_crashed (inst : VenvInstance) (pass_env : bool)
    (cmdargs : option string) (w w' : World) :
  stops_at inst pass_env cmdargs w Crashed w' ->
  run_instance inst pass_env cmdargs w
  = (result_of inst 1, [], SysExit 1, w').
Proof.
  intros H. apply attempt_stops_at in H. destruct H as [e [He Hr]].
  destruct e as [msg code stdout| | |]; simpl in Hr; try contradiction.
  unfold run_instance. rewrite He. reflexivity.
Qed.

(** When a command of an instance ends in an unexpected error (neither an
    exit code nor an interrupt), the process exits at once with status 1:
    the result of that instance is recorded with code 1, no later
    instance is run and, unlike after an interrupt, no summary is
    printed. *)
Theorem unexpected_error_exits (before rest : list VenvInstance)
    (inst : VenvInstance) (pythons : list PyVersion) (pass_env : bool)
    (cmdargs : option string) (w w1 w2 : World)
    (rs : list VenvInstanceResult) (out : list Printed) :
  run_loop before pythons pass_env cmdargs [] [] w = (rs, out, Next, w1) ->
  skipped pythons inst = false ->
  stops_at inst pass_env cmdargs w1 Crashed w2 ->
  run_instances (before ++ inst :: rest) pythons pass_env cmdargs w
  = (mkReport (rs ++ [result_of inst 1]) out (SystemExit 1), w2).
Proof.
  intros Hbefore Hsel Hcrash. unfold run_instances.
  erewrite run_loop_app by exact Hbefore. simpl.
  rewrite Hsel, (run_instance_crashed Hcrash). rewrite app_nil_r.
  reflexivity.
Qed.

(** So it is when the program of a command is not found: inside
    [Session.run] a [FileNotFoundError] is an exception like any other. *)
Lemma missing_program_exits (before rest : list VenvInstance)
    (inst : VenvInstance) (pythons : list PyVersion) (pass_env : bool)
    (cmdargs : option string) (w w1 w2 : World)
    (rs : list VenvInstanceResult) (out : list Printed) :
  run_loop before pythons pass_env cmdargs [] [] w = (rs, out, Next, w1) ->
  skipped pythons inst = false ->
  stops_at inst pass_env cmdargs w1 NotFound w2 ->
  run_instances (before ++ inst :: rest) pythons pass_env cmdargs w
  = (mkReport (rs ++ [result_of inst 1]) out (SystemExit 1), w2).
Proof.
  intros Hbefore Hsel Hmiss. unfold run_instances.
  erewrite run_loop_app by exact Hbefore. simpl. rewrite Hsel.
  apply attempt_stops_at in Hmiss. destruct Hmiss as [e [He Hr]].
  destruct e as [msg code stdout| | |]; simpl in Hr; try contradiction.
  unfold run_instance. rewrite He. rewrite app_nil_r. reflexivity.
Qed.
End RunLoopMore.

Lemma unexpected_error_witness :
  @run_instances scripted [plain "one"; plain "two"; plain "three"] [] false
    None [ok; Crashed; ok]
  = (mkReport [result_of (plain "one") 0; result_of (plain "two") 1] []
       (SystemExit 1),
     [ok]).
Proof.
  apply (@unexpected_error_exits scripted [plain "one"] [plain "three"]
           (plain "two") [] false None [ok; Crashed; ok] [Crashed; ok] [ok]
           [result_of (plain "one") 0] []).
  - reflexivity.
  - reflexivity.
  - apply at_test with (w1 := [Crashed; ok])
                       (line := get_venv_command ".riot/.venv_py38" "c").
    + left. split; reflexivity.
    + reflexivity.
    + reflexivity.
    + reflexivity.
Defined.

(** ** The environment and the packages of an instance *)

Section InstanceEnv.
Context {host : Host}.

Lemma env_fold_other (pkgs : Dict string) (k : string)
    (l : list (string * EnvValue)) :
  ~ In k (map fst l) ->
  forall base,
    dict_get k
      (fold_left
         (fun env kv =>
            match resolved_val (snd kv) pkgs with
            | Some val => dict_set (fst kv) val env
            | None => env
            end) l base)
    = dict_get k base.
Proof.
  induction l as [|[k0 v0] l IH]; simpl; intros Hk base; [reflexivity|].
  rewrite IH by tauto.
  destruct (resolved_val v0 pkgs); [|reflexivity].
  rewrite dict_get_set.
  destruct (String.eqb k k0) eqn:H0; [|reflexivity].
  apply String.eqb_eq in H0. subst k0. tauto.
Qed.

(** The environment of the test command: a variable the instance does not
    name keeps the value of the host when the environment is passed
    through, and is absent otherwise; a variable the instance names takes
    the value of its last assignment, whatever the host holds. *)
Theorem instance_env_overlay (inst : VenvInstance) (pass_env : bool)
    (pkgs : Dict string) (w : World) (k : string) :
  (~ In k (map fst (inst_env inst)) ->
   dict_get k (instance_env pass_env inst pkgs w)
   = if pass_env then dict_get k (os_environ w) else None)
  /\ (forall l1 v l2 val,
        inst_env inst = l1 ++ (k, v) :: l2 ->
        ~ In k (map fst l2) ->
        resolved_val v pkgs = Some val ->
        dict_get k (instance_env pass_env inst pkgs w) = Some val).
Proof.
  unfold instance_env. split.
  - intros Hk. rewrite env_fold_other by assumption.
    destruct pass_env; reflexivity.
  - intros l1 v l2 val Hl Hk Hv. rewrite Hl, fold_left_app. simpl.
    rewrite env_fold_other by assumption.
    rewrite Hv, dict_get_set, String.eqb_refl. reflexivity.
Qed.
End InstanceEnv.

Lemma instance_env_witness :
  dict_get "HOME" (@instance_env provisioned true with_env [] [])
  = Some "/root"
  /\ dict_get "A" (@instance_env provisioned true with_env [] [])
     = Some "2".
Proof.
  split.
  - apply (proj1 (@instance_env_overlay provisioned with_env true [] []
                    "HOME")).
    simpl. intuition discriminate.
  - apply (proj2 (@instance_env_overlay provisioned with_env true [] [] "A")
             [("A", Literal (Some "1")); ("B", Literal None)]
             (Literal (Some "2")) [] "2").
    + reflexivity.
    + simpl. tauto.
    + reflexivity.
Defined.

Lemma dict_set_keys_In (V : Type) (k k' : string) (v : V) (d : Dict V) :
  In k' (dict_keys (dict_set k v d)) <-> k' = k \/ In k' (dict_keys d).
Proof.
  induction d as [|[k0 v0] d IH]; simpl.
  - intuition.
  - destruct (String.eqb k k0) eqn:H0; simpl.
    + apply String.eqb_eq in H0. subst k0. intuition.
    + rewrite IH. intuition.
Qed.

Lemma dict_set_NoDup (V : Type) (k : string) (v : V) (d : Dict V) :
  NoDup (dict_keys d) -> NoDup (dict_keys (dict_set k v d)).
Proof.
  induction d as [|[k0 v0] d IH]; simpl; intros H.
  - repeat constructor. simpl. tauto.
  - inversion H as [|? ? Hnotin Hnd]; subst.
    destruct (String.eqb k k0) eqn:H0; simpl.
    + constructor; assumption.
    + constructor; [|apply IH; assumption].
      intros Hin. apply dict_set_keys_In in Hin. destruct Hin as [Hin|Hin].
      * subst k0. rewrite String.eqb_refl in H0. discriminate.
      * contradiction.
Qed.

Lemma resolved_fold_keys (l : list (string * Version)) :
  forall acc : Dict string,
    NoDup (dict_keys acc) ->
    NoDup (dict_keys
             (fold_left
                (fun d (nv : string * Version) =>
                   match snd nv with
                   | Some version => dict_set (fst nv) version d
                   | None => d
                   end) l acc))
    /\ forall k,
        In k (dict_keys
                (fold_left
                   (fun d (nv : string * Version) =>
                      match snd nv with
                      | Some version => dict_set (fst nv) version d
                      | None => d
                      end) l acc))
        <-> In k (dict_keys acc) \/ exists v, In (k, Some v) l.
Proof.
  induction l as [|[n [v|]] l IH]; intros acc Hnd; simpl.
  - split; [assumption|]. intros k. split; [auto|].
    intros [H|[v []]]. assumption.
  - destruct (IH (dict_set n v acc) (@dict_set_NoDup _ n v acc Hnd))
      as [H1 H2].
    split; [assumption|]. intros k. rewrite H2, dict_set_keys_In. split.
    + intros [[Hk|Hk]|[v' Hv']]; auto.
      * subst k. right. exists v. left. reflexivity.
      * right. exists v'. right. assumption.
    + intros [Hk|[v' [Hv'|Hv']]]; auto.
      * inversion Hv'; subst. auto.
      * right. exists v'. assumption.
  - destruct (IH acc Hnd) as [H1 H2].
    split; [assumption|]. intros k. rewrite H2. split.
    + intros [Hk|[v' Hv']]; auto. right. exists v'. right. assumption.
    + intros [Hk|[v' [Hv'|Hv']]]; auto; [discriminate|].
      right. exists v'. assumption.
Qed.

(** The packages a run installs for an instance: each package once, and
    exactly the packages to which the instance gives a version; those it
    sets to [None] are left out. *)
Theorem resolved_pkgs_keys (inst : VenvInstance) :
  NoDup (dict_keys (resolved_pkgs inst))
  /\ forall k,
      In k (dict_keys (resolved_pkgs inst))
      <-> exists v, In (k, Some v) (inst_pkgs inst).
Proof.
  unfold resolved_pkgs.
  destruct (@resolved_fold_keys (inst_pkgs inst) [] (NoDup_nil _))
    as [H1 H2].
  split; [assumption|]. intros k. rewrite H2. simpl. tauto.
Qed.

Lemma resolved_fold_left_out (l : list (string * Version)) :
  Forall (fun nv => snd nv = None) l ->
  forall acc : Dict string,
    fold_left
      (fun d (nv : string * Version) =>
         match snd nv with
         | Some version => dict_set (fst nv) version d
         | None => d
         end) l acc
    = acc.
Proof.
  induction 1 as [|[n v] l Hnv _ IH]; intros acc; simpl; [reflexivity|].
  simpl in Hnv. subst v. apply IH.
Qed.

Section NoPackages.
Context {host : Host}.

(** An instance all of whose packages are left out runs in the base
    virtualenv of its interpreter itself: its virtualenv name is the base
    path, its package summary is empty, and nothing is copied or
    installed: the one command [attempt] has the host run is the test
    command, in the base virtualenv and in the world as it is found, and
    the outcome of that command alone decides how [attempt] ends. *)
Theorem no_packages_use_base_venv (inst : VenvInstance) (pass_env : bool)
    (cmdargs : option string) (w : World) :
  Forall (fun nv => snd nv = None) (inst_pkgs inst) ->
  venv_name_of inst = get_base_venv_path (inst_py inst)
  /\ pkg_str_of inst = EmptyString
  /\ attempt inst pass_env cmdargs w
     = match str_format
               (get_venv_command (get_base_venv_path (inst_py inst))
                                 (inst_command inst))
               cmdargs with
       | None => (inr OtherException, w)
       | Some line =>
           match subprocess_run
                   (Shell line (Some (instance_env pass_env inst [] w))) w
           with
           | (Exited returncode stdout, w') =>
               if (returncode =? 0)%Z then (inl tt, w')
               else (inr (CmdFailure (TestFailed returncode) returncode
                                     stdout), w')
           | (Interrupted, w') => (inr KeyboardInterrupt, w')
           | (NotFound, w') => (inr FileNotFoundError, w')
           | (Crashed, w') => (inr OtherException, w')
           end
       end.
Proof.
  intros H.
  assert (Hr : resolved_pkgs inst = [])
    by (unfold resolved_pkgs; apply resolved_fold_left_out; assumption).
  unfold attempt, venv_name_of, pkg_str_of. rewrite Hr. simpl.
  split; [reflexivity|]. split; [reflexivity|].
  unfold bind, ret, reraise, run_cmd_venv, run_cmd.
  destruct (str_format _ cmdargs) as [line|]; [|reflexivity].
  destruct (subprocess_run _ w) as [[rc so| | |] w']; try reflexivity.
  destruct (rc =? 0)%Z; reflexivity.
Qed.
End NoPackages.

(** On the scripted host, the first outcome of the script is that of the
    test command. *)
Lemma no_packages_witness :
  venv_name_of left_out = ".riot/.venv_py38"
  /\ pkg_str_of left_out = EmptyString
  /\ @attempt scripted left_out false None [exit2]
     = (inr (CmdFailure (TestFailed 2) 2 EmptyString), []).
Proof.
  apply (@no_packages_use_base_venv scripted left_out false None [exit2]).
  repeat constructor.
Defined.

(** ** [list_venvs] against [run] *)

Lemma given_versions (l : list (string * Version)) :
  Forall (fun nv => snd nv <> None) l ->
  exists l' : list (string * string),
    l = map (fun nv => (fst nv, Some (snd nv))) l'.
Proof.
  induction 1 as [|[n [v|]] l Hnv _ IH].
  - exists []. reflexivity.
  - destruct IH as [l' ->]. exists ((n, v) :: l'). reflexivity.
  - simpl in Hnv. congruence.
Qed.

(** For an instance that gives a version to each of its packages (no
    package twice), the package summary that [list_venvs] prints is the
    one that [run] computes and reports. *)
Theorem list_pkgs_str_agrees (inst : VenvInstance) :
  NoDup (map fst (inst_pkgs inst)) ->
  Forall (fun nv => snd nv <> None) (inst_pkgs inst) ->
  list_pkgs_str inst = pkg_str_of inst.
Proof.
  intros Hnd Hall. destruct (given_versions Hall) as [l Hl].
  rewrite Hl, map_fst_given in Hnd.
  unfold list_pkgs_str, pkg_str_of.
  rewrite (@resolved_pkgs_given inst l Hl Hnd), Hl, map_map.
  destruct l; reflexivity.
Qed.

Lemma list_pkgs_str_witness :
  list_pkgs_str b2 = "'a1' 'b2'" /\ pkg_str_of b2 = "'a1' 'b2'".
Proof.
  assert (H : list_pkgs_str b2 = pkg_str_of b2).
  { apply list_pkgs_str_agrees.
    - repeat constructor; simpl; intuition discriminate.
    - repeat constructor; discriminate. }
  split; [rewrite H|]; reflexivity.
Defined.

Lemma results_follow_selected_witness :
  selected [] [plain "one"; plain "two"]
  = map instance
      (results (fst (@run_instances scripted [plain "one"; plain "two"] []
                       false None [ok; ok]))).
Proof.
  destruct (@results_follow_selected scripted [plain "one"; plain "two"] []
              false None [ok; ok]) as [rest [H1 [H2 _]]].
  rewrite (H2 eq_refl), app_nil_r in H1. exact H1.
Defined.
